(** * Keyframe extraction: time codes, timestamp collection, annotation
      correlation and scene-change detection

    A shallow embedding of [src/annotation_interface.py] ([parse_time],
    [extract_keyframes]) and [src/metadata_extraction.py]
    ([extract_keyframes]), with the parts of the Python runtime these
    functions rely on ([str.split], [int], binary64 arithmetic, [//], [%],
    [sorted(set(...))], zero-padded integer formatting). *)

From Stdlib Require Import ZArith List String Ascii Bool Lia Sorted.
From Stdlib Require Import Decimal DecimalString DecimalPos DecimalN.
From Stdlib Require Import SpecFloat.
Import ListNotations.

Local Open Scope Z_scope.

(* ================================================================== *)
(** * The Python runtime                                                *)
(* ================================================================== *)

Module Py.

(** ** Exceptions and the error monad *)

Inductive exn : Type :=
  | ValueError
  | TypeError
  | AttributeError
  | IndexError
  | OverflowError
  | ZeroDivisionError.

Inductive result (A : Type) : Type :=
  | Ok (a : A)
  | Raise (e : exn).
Arguments Ok {A} a.
Arguments Raise {A} e.

Definition bind {A B : Type} (r : result A) (k : A -> result B) : result B :=
  match r with
  | Ok a => k a
  | Raise e => Raise e
  end.

Notation "x <- r ;; k" := (bind r (fun x => k))
  (at level 61, r at next level, right associativity).

(** [try: body except: default] with a bare [except]. *)
Definition try_except {A : Type} (body : result A) (default : A) : A :=
  match body with
  | Ok a => a
  | Raise _ => default
  end.

(** A [for] loop whose body may raise: the accumulator is threaded through
    the elements in order and the first exception ends the loop. *)
Fixpoint for_each {A S : Type} (body : S -> A -> result S) (l : list A) (s : S)
  : result S :=
  match l with
  | [] => Ok s
  | a :: l' => s' <- body s a ;; for_each body l' s'
  end.

(** ** Strings

    A [str] is a sequence of code points; the model covers the code points
    below 256, one [ascii] each. *)

Definition code (c : ascii) : Z := Z.of_nat (nat_of_ascii c).

(** [s.split(sep)] for a one-character separator: never empty, one more
    token than there are separators. *)
Fixpoint split (sep : ascii) (s : string) : list string :=
  match s with
  | EmptyString => [EmptyString]
  | String c s' =>
      if Ascii.eqb c sep then EmptyString :: split sep s'
      else match split sep s' with
           | tok :: rest => String c tok :: rest
           | [] => [String c EmptyString]
           end
  end.

Fixpoint startswith (s p : string) : bool :=
  match p, s with
  | EmptyString, _ => true
  | String a p', String b s' => Ascii.eqb a b && startswith s' p'
  | String _ _, EmptyString => false
  end.

Fixpoint rev_string (s acc : string) : string :=
  match s with
  | EmptyString => acc
  | String c s' => rev_string s' (String c acc)
  end.

Definition endswith (s p : string) : bool :=
  startswith (rev_string s EmptyString) (rev_string p EmptyString).

(** [c.isalnum()] on the code points below 256. *)
Definition isalnum (c : ascii) : bool :=
  let n := code c in
  ((48 <=? n) && (n <=? 57)) || ((65 <=? n) && (n <=? 90))
  || ((97 <=? n) && (n <=? 122))
  || (n =? 170) || (n =? 178) || (n =? 179) || (n =? 181) || (n =? 185)
  || (n =? 186) || (n =? 188) || (n =? 189) || (n =? 190)
  || ((192 <=? n) && (n <=? 214)) || ((216 <=? n) && (n <=? 246))
  || (248 <=? n).

(** ** [int(str)]

    Surrounding white space is dropped, one sign is allowed, then decimal
    digits with single underscores between them.  White space for [int] is
    tab, line feed, vertical tab, form feed, carriage return, space, and
    the two Latin-1 spaces U+0085 and U+00A0.  The interpreter's optional
    limit on the number of digits ([sys.set_int_max_str_digits]) is not
    part of the model. *)

Definition is_space (c : ascii) : bool :=
  let n := code c in
  ((9 <=? n) && (n <=? 13)) || (n =? 32) || (n =? 133) || (n =? 160).

Definition digit_value (c : ascii) : option Z :=
  let n := code c in
  if (48 <=? n) && (n <=? 57) then Some (n - 48) else None.

Fixpoint lstrip (s : string) : string :=
  match s with
  | EmptyString => EmptyString
  | String c s' => if is_space c then lstrip s' else s
  end.

Fixpoint rstrip (s : string) : string :=
  match s with
  | EmptyString => EmptyString
  | String c s' =>
      match rstrip s' with
      | EmptyString => if is_space c then EmptyString else String c EmptyString
      | r => String c r
      end
  end.

(** The digits after the first one: [acc] is the value read so far. *)
Fixpoint int_digits (acc : Z) (s : string) : option Z :=
  match s with
  | EmptyString => Some acc
  | String c s' =>
      match digit_value c with
      | Some d => int_digits (10 * acc + d) s'
      | None =>
          if Ascii.eqb c "_" then
            match s' with
            | String c' s'' =>
                match digit_value c' with
                | Some d => int_digits (10 * acc + d) s''
                | None => None
                end
            | EmptyString => None
            end
          else None
      end
  end.

Definition int_unsigned (s : string) : option Z :=
  match s with
  | String c s' =>
      match digit_value c with
      | Some d => int_digits d s'
      | None => None
      end
  | EmptyString => None
  end.

Definition int_of_stripped (s : string) : option Z :=
  match s with
  | String c s' =>
      if Ascii.eqb c "-" then option_map Z.opp (int_unsigned s')
      else if Ascii.eqb c "+" then int_unsigned s'
      else int_unsigned s
  | EmptyString => None
  end.

Definition int (s : string) : result Z :=
  match int_of_stripped (rstrip (lstrip s)) with
  | Some z => Ok z
  | None => Raise ValueError
  end.

(** ** Floats

    A Python [float] is an IEEE 754 binary64 number; the arithmetic is the
    Standard Library's executable specification of it. *)

Definition prec : Z := 53.
Definition emax : Z := 1024.

Definition float : Type := spec_float.

Definition fzero : float := S754_zero false.

Definition fadd : float -> float -> float := SFadd prec emax.
Definition fsub : float -> float -> float := SFsub prec emax.
Definition fmul : float -> float -> float := SFmul prec emax.
Definition fdiv : float -> float -> float := SFdiv prec emax.

(** Comparisons; each is [false] as soon as one side is NaN. *)
Definition fle (x y : float) : bool := SFleb x y.
Definition flt (x y : float) : bool := SFltb x y.
Definition feq (x y : float) : bool := SFeqb x y.
Definition fge (x y : float) : bool := SFleb y x.
Definition fgt (x y : float) : bool := SFltb y x.

(** Every float but NaN takes part in the order. *)
Definition ordered (x : float) : Prop := x <> S754_nan.

Definition ltf (x y : float) : Prop := flt x y = true.

(** No two elements of the list are equal as floats. *)
Definition distinct (l : list float) : Prop :=
  ForallOrdPairs (fun a b => feq a b = false) l.

(** Zeros and finite numbers. *)
Definition is_finite (x : float) : bool :=
  match x with
  | S754_zero _ | S754_finite _ _ _ => true
  | _ => false
  end.

(** Zeros, and positive numbers up to infinity. *)
Definition nonneg (x : float) : bool :=
  match x with
  | S754_zero _ => true
  | S754_finite s _ _ | S754_infinity s => negb s
  | S754_nan => false
  end.

(** A zero, a finite number or an infinity that carries the sign [s]. *)
Definition signed (s : bool) (x : float) : Prop :=
  match x with
  | S754_zero s' | S754_finite s' _ _ | S754_infinity s' => s' = s
  | S754_nan => False
  end.

(** [float(n)] for an [int]: rounded to nearest, ties to even;
    [OverflowError] when the integer is beyond the range of a float. *)
Definition float_of_int (n : Z) : result float :=
  match binary_normalize prec emax n 0 false with
  | S754_infinity _ => Raise OverflowError
  | f => Ok f
  end.

(** The integer [n] as an exact, not normalised, mantissa. *)
Definition exact_int (n : Z) : float :=
  match n with
  | Z0 => S754_zero false
  | Zpos p => S754_finite false p 0
  | Zneg p => S754_finite true p 0
  end.

(** [a / b] on two [int]s: the quotient of the integers themselves, rounded
    once. *)
Definition int_truediv (a b : Z) : result float :=
  match b with
  | Z0 => Raise ZeroDivisionError
  | _ =>
      match SFdiv prec emax (exact_int a) (exact_int b) with
      | S754_infinity _ => Raise OverflowError
      | f => Ok f
      end
  end.

(** [n + x] for an [int] and a [float]. *)
Definition int_add_float (n : Z) (x : float) : result float :=
  f <- float_of_int n ;; Ok (fadd f x).

(** The float of an [int] literal that is within range. *)
Definition float_lit (n : Z) : float := binary_normalize prec emax n 0 false.

(** A float is true in a condition unless it is a zero; NaN is true. *)
Definition truthy (x : float) : bool := negb (feq x fzero).

Definition sign_bit (x : float) : bool :=
  match x with
  | S754_zero s | S754_infinity s | S754_finite s _ _ => s
  | S754_nan => false
  end.

(** [copysign(0.0, x)] *)
Definition zero_like (x : float) : float := S754_zero (sign_bit x).

(** C's [fmod]: the exact remainder of [x] by [y], with the sign of [x]. *)
Definition fmod (x y : float) : float :=
  match x, y with
  | S754_nan, _ | _, S754_nan => S754_nan
  | S754_infinity _, _ => S754_nan
  | _, S754_zero _ => S754_nan
  | _, S754_infinity _ => x
  | S754_zero _, _ => x
  | S754_finite sx mx ex, S754_finite _ my ey =>
      let e := Z.min ex ey in
      let X := Z.shiftl (Zpos mx) (ex - e) in
      let Y := Z.shiftl (Zpos my) (ey - e) in
      binary_normalize prec emax (cond_Zopp sx (Z.rem X Y)) e sx
  end.

(** C's [floor]. *)
Definition ffloor (x : float) : float :=
  match x with
  | S754_finite s m e =>
      if 0 <=? e then x
      else binary_normalize prec emax (Z.shiftr (cond_Zopp s (Zpos m)) (- e)) 0 s
  | _ => x
  end.

Definition fone : float := S754_finite false 4503599627370496 (-52).
Definition fhalf : float := S754_finite false 4503599627370496 (-53).

(** [x % y] on floats: the remainder takes the sign of the divisor. *)
Definition float_rem (vx wx : float) : result float :=
  if feq wx fzero then Raise ZeroDivisionError
  else
    let md := fmod vx wx in
    Ok (if truthy md then
          if xorb (flt wx fzero) (flt md fzero) then fadd md wx else md
        else zero_like wx).

(** [x // y] on floats. *)
Definition float_floor_div (vx wx : float) : result float :=
  if feq wx fzero then Raise ZeroDivisionError
  else
    let md := fmod vx wx in
    let div := fdiv (fsub vx md) wx in
    let div :=
      if truthy md && xorb (flt wx fzero) (flt md fzero)
      then fsub div fone else div in
    Ok (if truthy div then
          let floordiv := ffloor div in
          if fgt (fsub div floordiv) fhalf then fadd floordiv fone
          else floordiv
        else zero_like (fdiv vx wx)).

(** [int(x)] on a float: truncation towards zero. *)
Definition int_of_float (x : float) : result Z :=
  match x with
  | S754_nan => Raise ValueError
  | S754_infinity _ => Raise OverflowError
  | S754_zero _ => Ok 0
  | S754_finite s m e => Ok (cond_Zopp s (Z.shiftl (Zpos m) e))
  end.

(** ** Formatting *)

Fixpoint zfill (width : nat) (digits : string) : string :=
  if Nat.leb width (String.length digits) then digits
  else match width with
       | O => digits
       | S w => String "0" (zfill w digits)
       end.

(** [f"{n:0{width}d}"]: the sign counts in the width. *)
Definition format_d (width : nat) (n : Z) : string :=
  let digits := NilZero.string_of_uint (N.to_uint (Z.abs_N n)) in
  if n <? 0 then String "-" (zfill (width - 1) digits)
  else zfill width digits.

(** [str(n)] for an [int]. *)
Definition str_of_int (n : Z) : string := format_d 0 n.

Fixpoint string_map (f : ascii -> ascii) (s : string) : string :=
  match s with
  | EmptyString => EmptyString
  | String c s' => String (f c) (string_map f s')
  end.

(** [os.path.join(a, b)] on a POSIX system. *)
Definition path_join (a b : string) : string :=
  if startswith b "/" then b
  else if String.eqb a "" || endswith a "/" then a ++ b
  else a ++ "/" ++ b.

(** [enumerate(l)] *)
Definition enumerate {A : Type} (l : list A) : list (nat * A) :=
  combine (seq 0 (List.length l)) l.

End Py.

Import Py.

(* ================================================================== *)
(** * The insights document                                             *)
(* ================================================================== *)

(** The scalar values found in the decoded JSON document.

    The records below are the documents in which every key is either
    absent or holds a value of the kind the code goes on to use: a list
    where the code iterates, an object where it calls [get].  An option is
    [None] when the key is absent.  A key that is present with JSON null
    (or another kind of value) where a list or an object is used makes the
    code raise TypeError or AttributeError; such documents, and names that
    are lists or objects, are outside these records. *)
Inductive value : Type :=
  | VNone
  | VInt (n : Z)
  | VFloat (x : float)
  | VStr (s : string).

(** [d.get(key)]: a field is [None] when the key is absent. *)
Definition get (field : option value) : value :=
  match field with
  | Some v => v
  | None => VNone
  end.

(** [d.get(key, default)] *)
Definition get_default {A : Type} (field : option A) (default : A) : A :=
  match field with
  | Some v => v
  | None => default
  end.

(** An element of a label's ["appearances"]. *)
Record appearance : Type := {
  startTime : option value;
  endTime : option value;
  appearance_confidence : option value
}.

Record label : Type := {
  label_name : option value;
  appearances : option (list appearance)
}.

(** An element of a transcript segment's ["instances"]. *)
Record transcript_instance : Type := {
  adjustedStart : option value;
  adjustedEnd : option value
}.

Record segment : Type := {
  segment_instances : option (list transcript_instance)
}.

Record shot : Type := {
  shot_start : option value;
  shot_end : option value;
  tags : option (list value)
}.

(** An element of the ["instances"] of a face or of an OCR entry. *)
Record instance : Type := {
  start : option value;
  end_ : option value;
  confidence : option value
}.

Record face : Type := {
  face_name : option value;
  face_instances : option (list instance)
}.

Record ocr : Type := {
  text : option value;
  ocr_confidence : option value;
  ocr_instances : option (list instance)
}.

Record insights : Type := {
  labels : option (list label);
  transcript : option (list segment);
  shots : option (list shot);
  faces : option (list face);
  ocr_entries : option (list ocr)
}.

Record video : Type := {
  video_insights : option insights
}.

Record metadata : Type := {
  name : option value;
  videos : option (list video)
}.

(** The empty dictionary [{}] read as an insights object. *)
Definition no_insights : insights :=
  {| labels := None; transcript := None; shots := None; faces := None;
     ocr_entries := None |}.

(* ================================================================== *)
(** * annotation_interface.py                                           *)
(* ================================================================== *)

Module annotation_interface.

(** The body of the [try] in [parse_time]. *)
Definition parse_time_body (time_str : value) : result float :=
  match time_str with
  | VStr str =>
      match split ":" str with
      | [h; m; s] =>
          match split "." s with
          | [s; ms] =>
              h' <- int h ;;
              m' <- int m ;;
              s' <- int s ;;
              ms' <- int ms ;;
              frac <- int_truediv ms' 1000 ;;
              int_add_float (h' * 3600 + m' * 60 + s') frac
          | _ => Raise ValueError
          end
      | _ => Raise ValueError
      end
  | _ => Raise AttributeError
  end.

(** [parse_time]: the [int] 0 of the [except] branch is the float zero. *)
Definition parse_time (time_str : value) : float :=
  try_except (parse_time_body time_str) fzero.

(** The inputs the parser rejects: a value that is not a string (a field
    that is missing or null), the empty string, a wrong number of tokens
    around [":"] or around ["."], and a token that [int] does not read. *)
Inductive malformed : value -> Prop :=
  | missing_field (v : value) :
      (forall str, v <> VStr str) -> malformed v
  | empty_string : malformed (VStr "")
  | wrong_token_count (str : string) :
      List.length (split ":" str) <> 3%nat -> malformed (VStr str)
  | wrong_seconds_token_count (str h m s : string) :
      split ":" str = [h; m; s] ->
      List.length (split "." s) <> 2%nat -> malformed (VStr str)
  | non_numeric_part (str h m s sec ms part : string) :
      split ":" str = [h; m; s] ->
      split "." s = [sec; ms] ->
      In part [h; m; sec; ms] ->
      int part = Raise ValueError -> malformed (VStr str).

(** The characters of a string. *)
Definition chars (str : string) : list ascii := list_ascii_of_string str.

(** No minus sign anywhere in the text; vacuous for a value that is not a
    string. *)
Definition unsigned_text (v : value) : Prop :=
  forall str, v = VStr str -> ~ In "-"%char (chars str).

(** ** The keyframe record *)

(** [{"name": ..., "confidence": ...}] *)
Record named_entry : Type := {
  entry_name : value;
  entry_confidence : value
}.

(** [{"text": ..., "confidence": ...}] *)
Record text_entry : Type := {
  entry_text : value;
  text_confidence : value
}.

Record keyframe_data : Type := {
  frame_index : nat;
  keyframe_path : string;
  start_time : string;
  end_time : string;
  shot_tags : list value;
  kf_labels : list named_entry;
  kf_faces : list named_entry;
  ocr_text : list text_entry
}.

(** ** Collecting the timestamps *)

(** [timestamps.add(x)] on a set kept in insertion order: an element equal
    to one already present is not added. *)
Definition set_add (s : list float) (x : float) : list float :=
  if existsb (feq x) s then s else s ++ [x].

(** [sorted]: a stable insertion sort that only uses [<]. *)
Fixpoint insert (x : float) (l : list float) : list float :=
  match l with
  | [] => [x]
  | y :: l' => if flt y x then y :: insert x l' else x :: l
  end.

Definition sorted (l : list float) : list float := fold_right insert [] l.

Definition add_label_timestamps (vi : insights) (timestamps : list float)
  : list float :=
  fold_left
    (fun timestamps label =>
       fold_left
         (fun timestamps instance =>
            let timestamps :=
              set_add timestamps (parse_time (get (startTime instance))) in
            set_add timestamps (parse_time (get (endTime instance))))
         (get_default (appearances label) []) timestamps)
    (get_default (labels vi) []) timestamps.

Definition add_transcript_timestamps (vi : insights) (timestamps : list float)
  : list float :=
  fold_left
    (fun timestamps segment =>
       fold_left
         (fun timestamps instance =>
            let timestamps :=
              set_add timestamps (parse_time (get (adjustedStart instance))) in
            set_add timestamps (parse_time (get (adjustedEnd instance))))
         (get_default (segment_instances segment) []) timestamps)
    (get_default (transcript vi) []) timestamps.

Definition add_shot_timestamps (vi : insights) (timestamps : list float)
  : list float :=
  fold_left
    (fun timestamps shot =>
       let timestamps :=
         set_add timestamps (parse_time (get (shot_start shot))) in
       set_add timestamps (parse_time (get (shot_end shot))))
    (get_default (shots vi) []) timestamps.

(** Lines 63-84: the set of boundaries, then [sorted(list(timestamps))]. *)
Definition collect_timestamps (vi : insights) : list float :=
  let timestamps := [] in
  let timestamps := add_label_timestamps vi timestamps in
  let timestamps := add_transcript_timestamps vi timestamps in
  let timestamps := add_shot_timestamps vi timestamps in
  sorted timestamps.

(** ** The annotations active at a timestamp *)

Definition default_time : value := VStr "0:00:00".

Definition active_labels (vi : insights) (timestamp : float)
  : list named_entry :=
  fold_left
    (fun acc label =>
       fold_left
         (fun acc instance =>
            if fle (parse_time (get_default (startTime instance) default_time))
                   timestamp
               && fge (parse_time (get_default (endTime instance) default_time))
                      timestamp
            then acc ++ [{| entry_name := get (label_name label);
                            entry_confidence :=
                              get_default (appearance_confidence instance)
                                          (VInt 0) |}]
            else acc)
         (get_default (appearances label) []) acc)
    (get_default (labels vi) []) [].

Definition active_faces (vi : insights) (timestamp : float)
  : list named_entry :=
  fold_left
    (fun acc face =>
       fold_left
         (fun acc instance =>
            if fle (parse_time (get_default (start instance) default_time))
                   timestamp
               && fge (parse_time (get_default (end_ instance) default_time))
                      timestamp
            then acc ++ [{| entry_name := get (face_name face);
                            entry_confidence :=
                              get_default (confidence instance) (VInt 0) |}]
            else acc)
         (get_default (face_instances face) []) acc)
    (get_default (faces vi) []) [].

Definition active_ocr (vi : insights) (timestamp : float)
  : list text_entry :=
  fold_left
    (fun acc ocr =>
       fold_left
         (fun acc instance =>
            if fle (parse_time (get_default (start instance) default_time))
                   timestamp
               && fge (parse_time (get_default (end_ instance) default_time))
                      timestamp
            then acc ++ [{| entry_text := get (text ocr);
                            text_confidence :=
                              get_default (ocr_confidence ocr) (VInt 0) |}]
            else acc)
         (get_default (ocr_instances ocr) []) acc)
    (get_default (ocr_entries vi) []) [].

Definition active_shot_tags (vi : insights) (timestamp : float)
  : list value :=
  fold_left
    (fun acc shot =>
       if fle (parse_time (get_default (shot_start shot) default_time))
              timestamp
          && fge (parse_time (get_default (shot_end shot) default_time))
                 timestamp
       then acc ++ get_default (tags shot) []
       else acc)
    (get_default (shots vi) []) [].

(** ** What the collector and the correlator are compared with *)

(** The interval boundaries of the three seeding categories, in document
    order: label appearances, transcript instances, shots. *)
Definition label_boundaries (vi : insights) : list float :=
  flat_map
    (fun label =>
       flat_map
         (fun instance => [parse_time (get (startTime instance));
                           parse_time (get (endTime instance))])
         (get_default (appearances label) []))
    (get_default (labels vi) []).

Definition transcript_boundaries (vi : insights) : list float :=
  flat_map
    (fun segment =>
       flat_map
         (fun instance => [parse_time (get (adjustedStart instance));
                           parse_time (get (adjustedEnd instance))])
         (get_default (segment_instances segment) []))
    (get_default (transcript vi) []).

Definition shot_boundaries (vi : insights) : list float :=
  flat_map
    (fun shot => [parse_time (get (shot_start shot));
                  parse_time (get (shot_end shot))])
    (get_default (shots vi) []).

Definition boundaries (vi : insights) : list float :=
  label_boundaries vi ++ transcript_boundaries vi ++ shot_boundaries vi.

(** [start <= t <= end] on the parsed bounds of an interval; a bound that
    is absent reads as ["0:00:00"]. *)
Definition active (start_field end_field : option value) (t : float) : Prop :=
  fle (parse_time (get_default start_field default_time)) t = true
  /\ fle t (parse_time (get_default end_field default_time)) = true.

Definition activeb (start_field end_field : option value) (t : float) : bool :=
  fle (parse_time (get_default start_field default_time)) t
  && fle t (parse_time (get_default end_field default_time)).

(** ** The time string of a keyframe (lines 108-113) *)

Definition time_str (timestamp : float) : result string :=
  hours <- (q <- float_floor_div timestamp (float_lit 3600) ;;
            int_of_float q) ;;
  minutes <- (r <- float_rem timestamp (float_lit 3600) ;;
              q <- float_floor_div r (float_lit 60) ;;
              int_of_float q) ;;
  seconds <- (r <- float_rem timestamp (float_lit 60) ;; int_of_float r) ;;
  milliseconds <- (r <- float_rem (fmul timestamp (float_lit 1000))
                                  (float_lit 1000) ;;
                   int_of_float r) ;;
  Ok (format_d 2 hours ++ ":" ++ format_d 2 minutes ++ ":"
      ++ format_d 2 seconds ++ "." ++ format_d 3 milliseconds)%string.

(** ** The video source and the file system *)

Section Build.

Context {frame : Type}.

(** An opened [cv2.VideoCapture]: whether it could be opened, the frame
    rate it reports, and what [read] returns once the position has been set
    to a frame number ([None] when [ret] is false). *)
Record VideoCapture : Type := {
  isOpened : bool;
  fps : float;
  read_at : Z -> option frame
}.

Record environment : Type := {
  (** [os.listdir("data/raw_videos")]; [None] when the directory is absent.
      A path that exists and cannot be listed (a plain file, a directory
      without permission), on which [os.listdir] raises an OSError, is
      outside this record. *)
  raw_videos : option (list string);
  open_video : string -> VideoCapture;
  abspath : string -> string
}.

Definition raw_videos_dir : string := path_join "data" "raw_videos".

Definition video_extensions : list string := [".mp4"; ".mov"; ".avi"; ".mkv"]%string.

(** [not v] is false for these values. *)
Definition truthy_value (v : value) : bool :=
  match v with
  | VNone => false
  | VInt n => negb (n =? 0)
  | VFloat x => truthy x
  | VStr s => negb (String.eqb s "")
  end.

(** [frame_number = int(timestamp * fps)] *)
Definition frame_number (cap : VideoCapture) (timestamp : float) : result Z :=
  int_of_float (fmul timestamp (fps cap)).

(** Lines 104-161: the record of the keyframe sampled at [timestamp].  The
    image written to [thumbnail_path] is not part of the returned data. *)
Definition make_keyframe (env : environment) (thumbnails_dir : string)
    (vi : insights) (frame_index : nat) (timestamp : float)
  : result keyframe_data :=
  let thumbnail_path :=
    abspath env
      (path_join thumbnails_dir
         ("frame_" ++ str_of_int (Z.of_nat frame_index) ++ ".jpg")) in
  time_str <- time_str timestamp ;;
  Ok {| frame_index := frame_index;
        keyframe_path := thumbnail_path;
        start_time := time_str;
        end_time := time_str;
        shot_tags := active_shot_tags vi timestamp;
        kf_labels := active_labels vi timestamp;
        kf_faces := active_faces vi timestamp;
        ocr_text := active_ocr vi timestamp |}.

(** One iteration of the loop of lines 95-163. *)
Definition keyframe_step (env : environment) (cap : VideoCapture)
    (thumbnails_dir : string) (vi : insights)
    (formatted_keyframes : list keyframe_data) (item : nat * float)
  : result (list keyframe_data) :=
  let '(frame_index, timestamp) := item in
  frame_number <- frame_number cap timestamp ;;
  match read_at cap frame_number with
  | Some frame =>
      keyframe_data <-
        make_keyframe env thumbnails_dir vi frame_index timestamp ;;
      Ok (formatted_keyframes ++ [keyframe_data])
  | None => Ok formatted_keyframes
  end.

(** The frame of the timestamp is decoded ([ret] is true). *)
Definition readable (cap : VideoCapture) (timestamp : float) : bool :=
  match frame_number cap timestamp with
  | Ok n => match read_at cap n with Some _ => true | None => false end
  | Raise _ => false
  end.


(** [metadata.get("videos", [{}])[0].get("insights", {})] *)
Definition insights_of (md : metadata) : result insights :=
  match videos md with
  | None => Ok no_insights
  | Some [] => Raise IndexError
  | Some (v :: _) => Ok (get_default (video_insights v) no_insights)
  end.

(** Lines 33-54: the video file named by the document, with the sanitized
    base name used for the thumbnails directory. *)
Definition locate_video (env : environment) (md : metadata)
  : result (string * string) :=
  let video_name := get (name md) in
  if negb (truthy_value video_name) then Raise ValueError
  else
    match video_name with
    | VStr video_name =>
        let base_name := hd EmptyString (split "_" video_name) in
        let sanitized_name :=
          string_map (fun c => if isalnum c then c else "_"%char) base_name in
        match raw_videos env with
        | None => Raise ValueError
        | Some files =>
            let video_files :=
              filter (fun f => startswith f base_name
                               && existsb (endswith f) video_extensions)
                     files in
            match video_files with
            | [] => Raise ValueError
            | first :: _ => Ok (path_join raw_videos_dir first, sanitized_name)
            end
        end
    | _ => Raise AttributeError
    end.

(** Lines 86-163: open the video and visit the timestamps in order. *)
Definition sample_keyframes (env : environment) (video_path : string)
    (thumbnails_dir : string) (vi : insights) (timestamps : list float)
  : result (list keyframe_data) :=
  let cap := open_video env video_path in
  if negb (isOpened cap) then Raise ValueError
  else
    for_each (keyframe_step env cap thumbnails_dir vi)
             (enumerate timestamps) [].

Definition extract_keyframes (env : environment) (md : metadata)
  : result (list keyframe_data) :=
  located <- locate_video env md ;;
  let '(video_path, sanitized_name) := located in
  vi <- insights_of md ;;
  let thumbnails_dir := path_join "thumbnails" sanitized_name in
  let timestamps := collect_timestamps vi in
  sample_keyframes env video_path thumbnails_dir vi timestamps.

(** The first frame number that does not fit the signed 64-bit position of
    the capture. *)
Definition position_limit : Z := 2 ^ 63.

(** A capture over a decoded stream of frames, as [cv2.VideoCapture]
    behaves on a file: reading succeeds at the positions inside the stream
    and returns no frame from the end of the stream on; a negative
    position is taken as the first frame, and so is a frame number that
    does not fit the 64-bit position.  The frame numbers the builder
    passes are values of [int] on a float, which the conversion to the
    float argument of [cap.set] leaves as they are. *)
Definition stream_capture (frames : list frame) (rate : float) : VideoCapture :=
  {| isOpened := true;
     fps := rate;
     read_at := fun n =>
       if (n <? 0) || (position_limit <=? n) then nth_error frames 0
       else if n <? Z.of_nat (List.length frames)
            then nth_error frames (Z.to_nat n)
            else None |}.

End Build.

Arguments VideoCapture : clear implicits.
Arguments environment : clear implicits.

End annotation_interface.

(* ================================================================== *)
(** * metadata_extraction.py                                            *)
(* ================================================================== *)

Module metadata_extraction.

Definition PROCESSED_DIR : string := "data/processed".

Record keyframe : Type := {
  frame_index : Z;
  keyframe_path : string;
  diff_mean : float
}.

(** The [int] default of [threshold], compared with a float. *)
Definition default_threshold : float := float_lit 40.

Section SceneChange.

Context {frame gray : Type}.

(** The frames [cap.read()] delivers, in order, for a path; the empty list
    when the file cannot be opened. *)
Variable VideoCapture : string -> list frame.
(** [cv2.cvtColor(frame, cv2.COLOR_BGR2GRAY)], [cv2.absdiff], [np.mean] *)
Variable cvtColor : frame -> gray.
Variable absdiff : gray -> gray -> gray.
Variable mean : gray -> float.

(** The [while True] loop of lines 41-64 over the frames still to read. *)
Fixpoint scan (threshold : float) (stream : list frame)
    (prev_frame : option gray) (frame_idx : Z) (keyframes : list keyframe)
  : list keyframe :=
  match stream with
  | [] => keyframes
  | frame :: stream' =>
      let gray := cvtColor frame in
      let keyframes :=
        match prev_frame with
        | Some prev_frame =>
            let diff := absdiff gray prev_frame in
            let diff_mean := mean diff in
            if fgt diff_mean threshold then
              let keyframe_path :=
                path_join PROCESSED_DIR
                  ("keyframe_" ++ str_of_int frame_idx ++ ".jpg") in
              keyframes ++ [{| frame_index := frame_idx;
                               keyframe_path := keyframe_path;
                               diff_mean := diff_mean |}]
            else keyframes
        | None => keyframes
        end in
      scan threshold stream' (Some gray) (frame_idx + 1) keyframes
  end.

Definition extract_keyframes (video_path : string) (threshold : float)
  : list keyframe :=
  scan threshold (VideoCapture video_path) None 0 [].

(** What [prev_frame] holds when the frame at position [j] of the frames
    still to read is compared: the grayscale of the frame just before it. *)
Definition prev_of (prev_frame : option gray) (stream : list frame) (j : nat)
  : option gray :=
  match j with
  | O => prev_frame
  | S j' => option_map cvtColor (nth_error stream j')
  end.

(** The record emitted for frame [frame_idx] with score [d]. *)
Definition keyframe_of (frame_idx : Z) (d : float) : keyframe :=
  {| frame_index := frame_idx;
     keyframe_path :=
       path_join PROCESSED_DIR ("keyframe_" ++ str_of_int frame_idx ++ ".jpg");
     diff_mean := d |}.

End SceneChange.

End metadata_extraction.

(* ================================================================== *)
(** * Sample documents and video sources                                *)
(* ================================================================== *)

Module Examples.

Import annotation_interface.

Definition time (s : string) : option value := Some (VStr s).

(** Two shots, on [0, 2] and on [2, 5]. *)
Definition two_shots : insights :=
  {| labels := None; transcript := None;
     shots := Some [ {| shot_start := time "0:00:00.000";
                        shot_end := time "0:00:02.000";
                        tags := Some [VStr "wide"] |};
                     {| shot_start := time "0:00:02.000";
                        shot_end := time "0:00:05.000";
                        tags := None |} ];
     faces := None; ocr_entries := None |}.

(** One label that appears on [1.0, 3.0]. *)
Definition one_label : insights :=
  {| labels := Some [ {| label_name := Some (VStr "dog");
                         appearances :=
                           Some [ {| startTime := time "0:00:01.000";
                                     endTime := time "0:00:03.000";
                                     appearance_confidence :=
                                       Some (VFloat fhalf) |} ] |} ];
     transcript := None; shots := None; faces := None; ocr_entries := None |}.

Definition dog : named_entry :=
  {| entry_name := VStr "dog"; entry_confidence := VFloat fhalf |}.

(** One OCR entry whose own confidence is 1.0 and whose only instance, on
    [0, 2], has confidence 0.5. *)
Definition one_ocr : insights :=
  {| labels := None; transcript := None; shots := None; faces := None;
     ocr_entries :=
       Some [ {| text := Some (VStr "EXIT");
                 ocr_confidence := Some (VFloat fone);
                 ocr_instances :=
                   Some [ {| start := time "0:00:00.000";
                             end_ := time "0:00:02.000";
                             confidence := Some (VFloat fhalf) |} ] |} ] |}.



(** A shot on [0, 2] and a shot from 2 seconds to 10^14 hours. *)
Definition long_shot : insights :=
  {| labels := None; transcript := None;
     shots := Some [ {| shot_start := time "0:00:00.000";
                        shot_end := time "0:00:02.000";
                        tags := None |};
                     {| shot_start := time "0:00:02.000";
                        shot_end := time "100000000000000:00:00.000";
                        tags := None |} ];
     faces := None; ocr_entries := None |}.

Definition document (vi : insights) : metadata :=
  {| name := Some (VStr "clip_20240101");
     videos := Some [ {| video_insights := Some vi |} ] |}.

(** A stream of [n] frames at the given frame rate. *)
Definition film (n : nat) (rate : float) : VideoCapture unit :=
  stream_capture (repeat tt n) rate.

(** A source at 30 frames per second whose frame 60 cannot be decoded. *)
Definition damaged : VideoCapture unit :=
  {| isOpened := true;
     fps := float_lit 30;
     read_at := fun n => if n =? 60 then None else Some tt |}.

(** A source that cannot be opened. *)
Definition unopened : VideoCapture unit :=
  {| isOpened := false; fps := fzero; read_at := fun _ => None |}.

(** A store that holds [clip.mp4], opened as [cap]. *)
Definition studio (cap : VideoCapture unit) : environment unit :=
  {| raw_videos := Some ["notes.txt"; "clip.mp4"]%string;
     open_video := fun _ => cap;
     abspath := fun p => ("/srv/" ++ p)%string |}.

(** What the builder returns for the two shots on the damaged source, and
    on a film of 100 frames at 30 frames per second. *)
Definition damaged_keyframes : list keyframe_data :=
  Eval vm_compute in
    match extract_keyframes (studio damaged) (document two_shots) with
    | Ok kfs => kfs
    | Raise _ => []
    end.

Definition short_film_keyframes : list keyframe_data :=
  Eval vm_compute in
    match extract_keyframes (studio (film 100 (float_lit 30)))
                            (document two_shots) with
    | Ok kfs => kfs
    | Raise _ => []
    end.

(** A session state after two text areas were filled in, one of them with
    blanks only. *)
Definition session : list (string * value) :=
  [ ("has_unsaved_changes", VInt 1);
    ("annot_0", VStr "opening shot");
    ("annot_2", VStr "  ") ]%string.

(** Grayscale images as lists of intensities. *)
Definition pixels : Type := list Z.

Definition absdiff_pixels (a b : pixels) : pixels :=
  map (fun xy => Z.abs (fst xy - snd xy)) (combine a b).

Definition mean_pixels (img : pixels) : float :=
  match int_truediv (fold_right Z.add 0 img) (Z.of_nat (List.length img)) with
  | Ok m => m
  | Raise _ => S754_nan
  end.

(** Three dark frames, then a bright one. *)
Definition flash (path : string) : list pixels :=
  [[10; 10; 10; 10]; [10; 10; 10; 10]; [10; 10; 10; 10]; [200; 200; 60; 10]].

End Examples.

(* ================================================================== *)
(** * More of the Python runtime                                        *)
(* ================================================================== *)

Module PyMore.

(** [round(num / den)] to the nearest integer, ties to even, for
    [den > 0]. *)
Definition round_half_even (num den : Z) : Z :=
  let q := num / den in
  let r := num mod den in
  match 2 * r ?= den with
  | Lt => q
  | Gt => q + 1
  | Eq => if Z.even q then q else q + 1
  end.

(** [f"{x:.1f}"]: the exact value of the float rounded to one decimal,
    ties to even. *)
Definition format_f1 (x : float) : string :=
  match x with
  | S754_nan => "nan"
  | S754_infinity s => if s then "-inf" else "inf"
  | S754_zero s => if s then "-0.0" else "0.0"
  | S754_finite s m e =>
      let tenths :=
        if 0 <=? e then 10 * Z.shiftl (Zpos m) e
        else round_half_even (10 * Zpos m) (Z.shiftl 1 (- e)) in
      (if s then "-" else "")
      ++ str_of_int (tenths / 10) ++ "." ++ str_of_int (tenths mod 10)
  end.

(** [c.isspace()] on the code points below 256: what [str.strip] drops. *)
Definition isspace (c : ascii) : bool :=
  let n := code c in
  ((9 <=? n) && (n <=? 13)) || ((28 <=? n) && (n <=? 32))
  || (n =? 133) || (n =? 160).

Fixpoint lstrip_spaces (s : string) : string :=
  match s with
  | EmptyString => EmptyString
  | String c s' => if isspace c then lstrip_spaces s' else s
  end.

Fixpoint rstrip_spaces (s : string) : string :=
  match s with
  | EmptyString => EmptyString
  | String c s' =>
      match rstrip_spaces s' with
      | EmptyString => if isspace c then EmptyString else String c EmptyString
      | r => String c r
      end
  end.

(** [s.strip()] *)
Definition strip (s : string) : string := rstrip_spaces (lstrip_spaces s).

(** ** Dictionaries with string keys, in insertion order *)

Definition dict (V : Type) : Type := list (string * V).

(** [d[k] = v]: the value of an existing key is replaced in place, a new
    key goes to the end. *)
Fixpoint dict_set {V : Type} (d : dict V) (k : string) (v : V) : dict V :=
  match d with
  | [] => [(k, v)]
  | (k', v') :: d' =>
      if String.eqb k' k then (k', v) :: d' else (k', v') :: dict_set d' k v
  end.

(** [d.get(k)] *)
Fixpoint dict_get {V : Type} (d : dict V) (k : string) : option V :=
  match d with
  | [] => None
  | (k', v') :: d' => if String.eqb k' k then Some v' else dict_get d' k
  end.

(** No key occurs twice. *)
Definition dict_ok {V : Type} (d : dict V) : Prop := NoDup (map fst d).

(** ** [list.sort(key=..., reverse=True)]: stable, largest key first *)

Fixpoint insert_desc {A : Type} (key : A -> float) (x : A) (l : list A)
  : list A :=
  match l with
  | [] => [x]
  | y :: l' =>
      if flt (key x) (key y) then y :: insert_desc key x l' else x :: l
  end.

Definition sort_desc {A : Type} (key : A -> float) (l : list A) : list A :=
  fold_right (insert_desc key) [] l.

End PyMore.

Import PyMore.

(* ================================================================== *)
(** * annotation_interface.py: timing text, latest metadata file,       *)
(** * saved annotations                                                 *)
(* ================================================================== *)

Module annotation_ui.

Import annotation_interface.

(** [not text] for a value that is [None] or a string. *)
Definition blank (text : option string) : bool :=
  match text with
  | None => true
  | Some s => String.eqb s ""
  end.

(** [format_timing]; the arguments are [None] or strings, as
    [keyframe.get("start_time")] gives them. *)
Definition format_timing (start_time end_time : option string) : string :=
  match start_time, end_time with
  | Some start_text, Some end_text =>
      if blank start_time || blank end_time then "Timing not available"
      else
        let start := parse_time (VStr start_text) in
        let end_ := parse_time (VStr end_text) in
        let duration := fsub end_ start in
        start_text ++ " - " ++ end_text ++ " (" ++ format_f1 duration ++ "s)"
  | _, _ => "Timing not available"
  end.

Definition processed_dir : string := path_join "data" "processed".

(** [get_latest_metadata_file]: [listing] is [os.listdir(processed_dir)]
    and [getctime] is [os.path.getctime]. *)
Definition get_latest_metadata_file (listing : list string)
    (getctime : string -> float) (base_name : string) : option string :=
  let metadata_files :=
    filter (fun f => startswith f base_name && endswith f "_cloud.json")
           listing in
  match metadata_files with
  | [] => None
  | _ =>
      let metadata_files :=
        sort_desc (fun x => getctime (path_join processed_dir x))
                  metadata_files in
      Some (path_join processed_dir (hd EmptyString metadata_files))
  end.

(** A keyframe together with the ["annotation"] key it may have gained. *)
Record annotated : Type := {
  keyframe : keyframe_data;
  annotation : option value
}.

(** [f"annot_{kf['frame_index']}"] *)
Definition annot_key (kf : keyframe_data) : string :=
  "annot_" ++ str_of_int (Z.of_nat (frame_index kf)).

(** The inner loop of lines 341-345: the first keyframe whose index reads
    as [frame_idx] takes the annotation, and the session state with it. *)
Fixpoint annotate_first (frame_idx : string) (text : value)
    (keyframes : list annotated) (session : dict value)
  : list annotated * dict value :=
  match keyframes with
  | [] => ([], session)
  | kf :: rest =>
      if String.eqb (str_of_int (Z.of_nat (frame_index (keyframe kf))))
                    frame_idx
      then ({| keyframe := keyframe kf; annotation := Some text |} :: rest,
            dict_set session (annot_key (keyframe kf)) text)
      else
        let '(rest', session') := annotate_first frame_idx text rest session in
        (kf :: rest', session')
  end.

(** Lines 340-345: the saved annotations are loaded into the keyframes and
    into the session state. *)
Definition load_annotations (saved_annotations : dict value)
    (keyframes : list annotated) (session : dict value)
  : list annotated * dict value :=
  fold_left
    (fun state item =>
       annotate_first (fst item) (snd item) (fst state) (snd state))
    saved_annotations (keyframes, session).

(** Lines 449-457: the annotations to save, read from the session state. *)
Definition annotations_to_save (session : dict value) : result (dict value) :=
  let text_area_keys :=
    filter (fun k => startswith k "annot_") (map fst session) in
  for_each
    (fun annotations key =>
       let frame_idx := nth 1 (split "_" key) EmptyString in
       match dict_get session key with
       | None => Raise TypeError
       | Some text =>
           if negb (truthy_value text) then Ok annotations
           else
             match text with
             | VStr s =>
                 if negb (String.eqb (strip s) "")
                 then Ok (dict_set annotations frame_idx text)
                 else Ok annotations
             | _ => Raise AttributeError
             end
       end)
    text_area_keys [].

End annotation_ui.

(* ================================================================== *)
(** * metadata_extraction.py: the enrichment of keyframes               *)
(* ================================================================== *)

Module metadata_enrichment.

Import metadata_extraction.

Section Enrichment.

Context {frame gray image box : Type}.

Variable VideoCapture : string -> list frame.
Variable cvtColor : frame -> gray.
Variable absdiff : gray -> gray -> gray.
Variable mean : gray -> float.
(** [cv2.imread]: [None] when the image cannot be read. *)
Variable imread : string -> option image.
(** [cv.detect_common_objects(image, model='yolov3-tiny')] *)
Variable detect_common_objects :
  image -> list box * list string * list float.
(** [cv.detect_face(image)] *)
Variable detect_face : image -> list box * list float.

Record detected_object : Type := {
  object_label : string;
  object_confidence : float;
  object_bounding_box : box
}.

Record detected_face : Type := {
  face_bounding_box : box;
  face_confidence : float
}.

(** A keyframe with the ["objects"] and ["faces"] keys it may have
    gained. *)
Record enhanced : Type := {
  base : keyframe;
  objects : option (list detected_object);
  detected_faces : option (list detected_face)
}.

(** [zip] of three lists stops with the shortest. *)
Fixpoint zip3 {A B C : Type} (la : list A) (lb : list B) (lc : list C)
  : list (A * B * C) :=
  match la, lb, lc with
  | a :: la', b :: lb', c :: lc' => (a, b, c) :: zip3 la' lb' lc'
  | _, _, _ => []
  end.

Definition enhance_keyframe (keyframe : keyframe) : enhanced :=
  match imread (keyframe_path keyframe) with
  | None => {| base := keyframe; objects := None; detected_faces := None |}
  | Some image =>
      let '(bbox, labels, confidences) := detect_common_objects image in
      let objects :=
        map (fun item =>
               let '(box, label, conf) := item in
               {| object_label := label;
                  object_confidence := conf;
                  object_bounding_box := box |})
            (zip3 bbox labels confidences) in
      let '(faces, face_confidences) := detect_face image in
      let detected_faces :=
        map (fun item =>
               {| face_bounding_box := fst item;
                  face_confidence := snd item |})
            (combine faces face_confidences) in
      {| base := keyframe;
         objects := Some objects;
         detected_faces := Some detected_faces |}
  end.

Definition process_video_metadata (video_path : string) (threshold : float)
  : list enhanced :=
  let keyframes :=
    extract_keyframes VideoCapture cvtColor absdiff mean video_path threshold in
  map enhance_keyframe keyframes.

End Enrichment.

End metadata_enrichment.

(* ================================================================== *)
(** * app.py: naming of the uploaded video and of its metadata file     *)
(* ================================================================== *)

Module app.

(** Line 74: the name under which the uploaded video is indexed;
    [stamp] is [datetime.now().strftime('%Y%m%d%H%M%S')]. *)
Definition unique_video_name (base_name stamp : string) : string :=
  base_name ++ "_" ++ stamp.

(** Lines 27-31 of [save_insights_to_file]: where the insights are saved. *)
Definition insights_filename (base_name stamp : string) : string :=
  base_name ++ "_" ++ stamp ++ "_cloud.json".

Definition save_insights_to_file (base_name stamp : string) : string :=
  path_join "data/processed" (insights_filename base_name stamp).

(** [list_json_files]: [listing] is [os.listdir(directory)] (the directory
    is created when it is missing). *)
Definition list_json_files (directory : string) (listing : list string)
  : list string :=
  map (path_join directory) (filter (fun f => endswith f ".json") listing).

End app.

(* ================================================================== *)
(** * Vocabulary for the statements about the video lookup              *)
(* ================================================================== *)

(** The number written by a sequence of decimal digits, read from the left
    with [acc] as the value of the digits before it. *)
Fixpoint uint_value (acc : Z) (d : Decimal.uint) : Z :=
  match d with
  | Nil => acc
  | D0 d' => uint_value (10 * acc + 0) d'
  | D1 d' => uint_value (10 * acc + 1) d'
  | D2 d' => uint_value (10 * acc + 2) d'
  | D3 d' => uint_value (10 * acc + 3) d'
  | D4 d' => uint_value (10 * acc + 4) d'
  | D5 d' => uint_value (10 * acc + 5) d'
  | D6 d' => uint_value (10 * acc + 6) d'
  | D7 d' => uint_value (10 * acc + 7) d'
  | D8 d' => uint_value (10 * acc + 8) d'
  | D9 d' => uint_value (10 * acc + 9) d'
  end.

(** The decimal digits of a natural number, as [str] writes them. *)
Definition digits_of (n : N) : string :=
  NilZero.string_of_uint (N.to_uint n).

Definition is_digit (c : ascii) : bool :=
  match digit_value c with Some _ => true | None => false end.

(** What is saved for the content of a text area: a string that is not
    blank. *)
Definition saved_text (text : option value) : option value :=
  match text with
  | Some (VStr s) => if String.eqb (PyMore.strip s) "" then None else text
  | _ => None
  end.

(** The keys of the session state that start with "annot_" are those of
    the text areas, "annot_<frame index>". *)
Definition text_area_keys_only (session : PyMore.dict value) : Prop :=
  forall key,
    In key (map fst session) -> startswith key "annot_" = true ->
    exists i : nat, key = ("annot_" ++ str_of_int (Z.of_nat i))%string.

(** A keyframe as the builder returns it, without annotation. *)
Definition fresh (kf : annotation_interface.keyframe_data)
  : annotation_ui.annotated :=
  {| annotation_ui.keyframe := kf; annotation_ui.annotation := None |}.

(** The text the formatter writes for four integer fields (line 113). *)
Definition canonical_text (hours minutes seconds milliseconds : Z) : string :=
  format_d 2 hours ++ ":" ++ format_d 2 minutes ++ ":"
  ++ format_d 2 seconds ++ "." ++ format_d 3 milliseconds.

(** The part of a video name the lookup works with (line 39). *)
Definition base_name_of (video_name : string) : string :=
  hd EmptyString (split "_" video_name).

(** Line 41. *)
Definition sanitize (base_name : string) : string :=
  string_map (fun c => if isalnum c then c else "_"%char) base_name.

(** The test of line 49 on a file name. *)
Definition is_video_of (base_name f : string) : bool :=
  startswith f base_name
  && existsb (endswith f) annotation_interface.video_extensions.

(* ================================================================== *)
(** * Properties of the runtime model                                   *)
(* ================================================================== *)

Import annotation_interface.

(** ** The order on floats *)

Ltac cmp_cases :=
  repeat match goal with
  | |- context [Pos.compare_cont Eq ?a ?b] =>
      change (Pos.compare_cont Eq a b) with (Pos.compare a b);
      destruct (Pos.compare_spec a b)
  | H : context [Pos.compare_cont Eq ?a ?b] |- _ =>
      change (Pos.compare_cont Eq a b) with (Pos.compare a b) in H;
      destruct (Pos.compare_spec a b)
  | |- context [Z.compare ?a ?b] => destruct (Z.compare_spec a b)
  | H : context [Z.compare ?a ?b] |- _ => destruct (Z.compare_spec a b)
  end.

Ltac float_cases :=
  unfold ltf, ordered, flt, feq, fle, fge, fgt, SFltb, SFeqb, SFleb,
    SFcompare in *;
  repeat match goal with
  | x : float |- _ => destruct x as [[]|[]| |[] ? ?]
  | x : spec_float |- _ => destruct x as [[]|[]| |[] ? ?]
  end;
  simpl in *; try congruence; try reflexivity;
  cmp_cases; simpl in *; subst; try congruence; try reflexivity; try lia.

Lemma flt_irrefl (x : float) : flt x x = false.
Proof. float_cases. Qed.

Lemma feq_sym (x y : float) : feq x y = feq y x.
Proof. float_cases. Qed.

Lemma feq_refl (x : float) : ordered x -> feq x x = true.
Proof. intros H. float_cases. Qed.

Lemma flt_trans (x y z : float) :
  flt x y = true -> flt y z = true -> flt x z = true.
Proof. intros Hxy Hyz. float_cases. Qed.

Lemma flt_connex (x y : float) :
  ordered x -> ordered y ->
  flt y x = false -> feq x y = false -> flt x y = true.
Proof. intros Hx Hy H1 H2. float_cases. Qed.

Lemma flt_not_feq (x y : float) : flt x y = true -> feq x y = false.
Proof. intros H. float_cases. Qed.

Lemma flt_ordered (x y : float) : flt x y = true -> ordered x /\ ordered y.
Proof. intros H. split; float_cases. Qed.

(** ** [sorted] *)

Lemma insert_In (x t : float) (l : list float) :
  In t (insert x l) <-> t = x \/ In t l.
Proof.
  induction l as [|y l IH]; simpl.
  - intuition.
  - destruct (flt y x); simpl; rewrite ?IH; intuition.
Qed.

Lemma sorted_In (t : float) (l : list float) : In t (sorted l) <-> In t l.
Proof.
  induction l as [|x l IH]; simpl.
  - reflexivity.
  - unfold sorted in *. simpl. rewrite insert_In, IH. intuition.
Qed.

Lemma sorted_length (l : list float) :
  List.length (sorted l) = List.length l.
Proof.
  assert (Hins : forall x l', List.length (insert x l') = S (List.length l')).
  { intros x l'. induction l' as [|y l' IH]; simpl; [reflexivity|].
    destruct (flt y x); simpl; [now rewrite IH | reflexivity]. }
  induction l as [|x l IH]; [reflexivity|].
  unfold sorted in *. simpl. now rewrite Hins, IH.
Qed.

Lemma insert_sorted (x : float) (l : list float) :
  ordered x -> Forall ordered l ->
  Forall (fun y => feq x y = false) l ->
  StronglySorted ltf l -> StronglySorted ltf (insert x l).
Proof.
  intros Hx Hl Hne Hs.
  induction l as [|y l IH]; simpl.
  - constructor; constructor.
  - inversion Hl as [|? ? Hy Hl']; subst.
    inversion Hne as [|? ? Hxy Hne']; subst.
    inversion Hs as [|? ? Hs' Hall]; subst.
    destruct (flt y x) eqn:Hyx.
    + constructor; [now apply IH|].
      apply Forall_forall. intros t Ht. apply insert_In in Ht.
      destruct Ht as [->|Ht]; [exact Hyx|].
      rewrite Forall_forall in Hall. now apply Hall.
    + assert (Hlt : flt x y = true) by now apply flt_connex.
      constructor; [assumption|].
      constructor; [exact Hlt|].
      rewrite Forall_forall in Hall |- *. intros t Ht.
      eapply flt_trans; [exact Hlt | now apply Hall].
Qed.

Lemma sorted_StronglySorted (l : list float) :
  Forall ordered l -> distinct l -> StronglySorted ltf (sorted l).
Proof.
  induction l as [|x l IH]; intros Hl Hd.
  - constructor.
  - inversion Hl as [|? ? Hx Hl']; subst.
    inversion Hd as [|? ? Hne Hd']; subst.
    change (sorted (x :: l)) with (insert x (sorted l)).
    apply insert_sorted; auto.
    + apply Forall_forall. intros t Ht. apply (proj1 (sorted_In t l)) in Ht.
      rewrite Forall_forall in Hl'. now apply Hl'.
    + apply Forall_forall. intros t Ht. apply (proj1 (sorted_In t l)) in Ht.
      rewrite Forall_forall in Hne. now apply Hne.
Qed.

(** ** The timestamp set *)

Lemma distinct_snoc (s : list float) (x : float) :
  distinct s -> Forall (fun a => feq a x = false) s -> distinct (s ++ [x]).
Proof.
  unfold distinct. induction s as [|a s IH]; intros Hd Hx; simpl.
  - constructor; constructor.
  - inversion Hd as [|? ? Ha Hd']; subst.
    inversion Hx as [|? ? Hax Hx']; subst.
    constructor; [|now apply IH].
    apply Forall_app. split; [assumption|]. now constructor.
Qed.

Lemma set_add_distinct (s : list float) (x : float) :
  distinct s -> distinct (set_add s x).
Proof.
  intros Hd. unfold set_add. destruct (existsb (feq x) s) eqn:He; [assumption|].
  apply distinct_snoc; [assumption|].
  apply Forall_forall. intros a Ha. rewrite feq_sym.
  destruct (feq x a) eqn:Hxa; [|reflexivity].
  assert (existsb (feq x) s = true) by (apply existsb_exists; eauto).
  congruence.
Qed.

Lemma set_add_In (s : list float) (x t : float) :
  In t (set_add s x) -> In t s \/ t = x.
Proof.
  unfold set_add. destruct (existsb (feq x) s); [now left|].
  intros H. apply in_app_or in H. simpl in H. intuition.
Qed.

Lemma set_add_keeps (s : list float) (x t : float) :
  In t s -> In t (set_add s x).
Proof.
  unfold set_add. destruct (existsb (feq x) s); [easy|].
  intros H. apply in_or_app. now left.
Qed.

Lemma set_add_member (s : list float) (x : float) :
  ordered x -> exists t, In t (set_add s x) /\ feq x t = true.
Proof.
  intros Hx. unfold set_add. destruct (existsb (feq x) s) eqn:He.
  - apply existsb_exists in He. exact He.
  - exists x. split; [apply in_or_app; right; now left | now apply feq_refl].
Qed.

Lemma set_add_ordered (s : list float) (x : float) :
  ordered x -> Forall ordered s -> Forall ordered (set_add s x).
Proof.
  intros Hx Hs. unfold set_add. destruct (existsb (feq x) s); [assumption|].
  apply Forall_app. split; [assumption | now constructor].
Qed.

(** Adding the elements of a list one by one. *)
Lemma add_all_distinct (l s : list float) :
  distinct s -> distinct (fold_left set_add l s).
Proof.
  revert s. induction l as [|x l IH]; intros s Hs; simpl; [assumption|].
  apply IH. now apply set_add_distinct.
Qed.

Lemma add_all_ordered (l s : list float) :
  Forall ordered l -> Forall ordered s -> Forall ordered (fold_left set_add l s).
Proof.
  revert s. induction l as [|x l IH]; intros s Hl Hs; simpl; [assumption|].
  inversion Hl as [|? ? Hx Hl']; subst.
  apply IH; [assumption|]. now apply set_add_ordered.
Qed.

Lemma add_all_In (l s : list float) (t : float) :
  In t (fold_left set_add l s) -> In t s \/ In t l.
Proof.
  revert s. induction l as [|x l IH]; intros s H; simpl in *; [now left|].
  apply IH in H. destruct H as [H|H]; [|now right; right].
  apply set_add_In in H. intuition.
Qed.

Lemma add_all_keeps (l s : list float) (t : float) :
  In t s -> In t (fold_left set_add l s).
Proof.
  revert s. induction l as [|x l IH]; intros s H; simpl; [assumption|].
  apply IH. now apply set_add_keeps.
Qed.

Lemma add_all_member (l s : list float) (x : float) :
  Forall ordered l -> In x l ->
  exists t, In t (fold_left set_add l s) /\ feq x t = true.
Proof.
  revert s. induction l as [|y l IH]; intros s Hl Hin; [contradiction|].
  inversion Hl as [|? ? Hy Hl']; subst. simpl. destruct Hin as [->|Hin].
  - destruct (set_add_member s x) as [t [Ht Hxt]]; [assumption|].
    exists t. split; [now apply add_all_keeps | assumption].
  - now apply IH.
Qed.

(** ** Rounding never yields NaN and keeps the sign *)

Lemma shr_1_nonneg (mrs : shr_record) :
  0 <= shr_m mrs -> 0 <= shr_m (shr_1 mrs).
Proof.
  destruct mrs as [m r s]. simpl. intros H.
  destruct m as [|[p|p|]|p]; simpl; lia.
Qed.

Lemma iter_shr_1_nonneg (p : positive) (mrs : shr_record) :
  0 <= shr_m mrs -> 0 <= shr_m (iter_pos shr_1 p mrs).
Proof.
  revert mrs. induction p as [p IH|p IH|]; intros mrs H; simpl.
  - apply IH, IH. now apply shr_1_nonneg.
  - now apply IH, IH.
  - now apply shr_1_nonneg.
Qed.

Lemma shr_fexp_nonneg (m e : Z) (l : location) :
  0 <= m -> 0 <= shr_m (fst (shr_fexp prec emax m e l)).
Proof.
  intros H. unfold shr_fexp, shr.
  assert (H0 : 0 <= shr_m (shr_record_of_loc m l)).
  { destruct l as [|[]]; simpl; assumption. }
  destruct (fexp prec emax (Zdigits2 m + e) - e); simpl; auto.
  now apply iter_shr_1_nonneg.
Qed.

Lemma round_nearest_even_nonneg (m : Z) (l : location) :
  0 <= m -> 0 <= round_nearest_even m l.
Proof.
  intros H. destruct l as [|[]]; simpl; try lia.
  destruct (Z.even m); lia.
Qed.

Lemma binary_round_aux_signed (s : bool) (m e : Z) (l : location) :
  0 <= m -> signed s (binary_round_aux prec emax s m e l).
Proof.
  intros H. unfold binary_round_aux.
  pose proof (shr_fexp_nonneg m e l H) as H1.
  destruct (shr_fexp prec emax m e l) as [mrs' e']. simpl in H1.
  pose proof (shr_fexp_nonneg _ e' loc_Exact
                (round_nearest_even_nonneg _ (loc_of_shr_record mrs') H1)) as H2.
  destruct (shr_fexp prec emax _ e' loc_Exact) as [mrs'' e'']. simpl in H2.
  destruct (shr_m mrs'') as [|q|q]; [exact eq_refl| |lia].
  destruct (e'' <=? emax - prec); exact eq_refl.
Qed.

Lemma binary_round_signed (s : bool) (m : positive) (e : Z) :
  signed s (binary_round prec emax s m e).
Proof.
  unfold binary_round. destruct (shl_align m e _) as [mz ez].
  apply binary_round_aux_signed. lia.
Qed.

Lemma binary_normalize_signed (n e : Z) :
  signed (n <? 0) (binary_normalize prec emax n e false).
Proof.
  destruct n as [|p|p]; simpl; [exact eq_refl| |]; apply binary_round_signed.
Qed.

Lemma signed_ordered (s : bool) (x : float) : signed s x -> ordered x.
Proof. destruct x; simpl; unfold ordered; congruence. Qed.

Lemma signed_nonneg (x : float) : signed false x -> nonneg x = true.
Proof. destruct x; simpl; intros H; subst; auto. Qed.

Lemma float_of_int_Ok (n : Z) (f : float) :
  float_of_int n = Ok f -> is_finite f = true /\ signed (n <? 0) f.
Proof.
  unfold float_of_int. pose proof (binary_normalize_signed n 0) as H.
  destruct (binary_normalize prec emax n 0 false); simpl in *;
    intros E; try discriminate E; try contradiction;
    injection E as <-; (split; [reflexivity | exact H]).
Qed.

Lemma SFdiv_exact_int_signed (a b : Z) :
  b <> 0 ->
  signed (xorb (a <? 0) (b <? 0)) (SFdiv prec emax (exact_int a) (exact_int b)).
Proof.
  intros Hb.
  assert (Hcore : forall sa sb ma mb,
    signed (xorb sa sb)
      (SFdiv prec emax (S754_finite sa ma 0) (S754_finite sb mb 0))).
  { intros sa sb ma mb. unfold SFdiv, SFdiv_core_binary.
    set (e' := Z.min _ _). set (sh := 0 - 0 - e').
    set (m' := match sh with Z0 => Zpos ma | Zpos _ => Z.shiftl (Zpos ma) sh
                        | Zneg _ => 0 end).
    assert (Hm' : 0 <= m').
    { unfold m'. destruct sh; try lia. apply Z.shiftl_nonneg. lia. }
    pose proof (Z_div_mod m' (Zpos mb) eq_refl) as Hdm.
    destruct (Z.div_eucl m' (Zpos mb)) as [q r].
    apply binary_round_aux_signed. nia. }
  destruct a as [|pa|pa], b as [|pb|pb]; try congruence;
    first [ exact eq_refl
          | exact (Hcore false false _ _) | exact (Hcore false true _ _)
          | exact (Hcore true false _ _) | exact (Hcore true true _ _) ].
Qed.

Lemma int_truediv_Ok (a b : Z) (f : float) :
  int_truediv a b = Ok f ->
  is_finite f = true /\ signed (xorb (a <? 0) (b <? 0)) f.
Proof.
  unfold int_truediv. destruct (Z.eq_dec b 0) as [->|Hb]; [discriminate|].
  pose proof (SFdiv_exact_int_signed a b Hb) as H.
  destruct b; [congruence| |];
    destruct (SFdiv prec emax (exact_int a) _); simpl in *;
    intros E; try discriminate E; try contradiction;
    injection E as <-; (split; [reflexivity | exact H]).
Qed.

Lemma fadd_finite (x y : float) :
  is_finite x = true -> is_finite y = true ->
  ordered (fadd x y) /\
  (nonneg x = true -> nonneg y = true -> nonneg (fadd x y) = true).
Proof.
  intros Hx Hy.
  destruct x as [sx|sx| |sx mx ex]; try discriminate;
    destruct y as [sy|sy| |sy my ey]; try discriminate;
    unfold fadd, SFadd.
  - destruct sx, sy; unfold ordered; split; simpl; congruence.
  - unfold ordered; split; simpl; congruence.
  - unfold ordered; split; simpl; congruence.
  - set (ez := Z.min ex ey).
    set (a := Zpos (fst (shl_align mx ex ez))).
    set (b := Zpos (fst (shl_align my ey ez))).
    pose proof (binary_normalize_signed (cond_Zopp sx a + cond_Zopp sy b) ez)
      as H.
    split; [eapply signed_ordered; exact H|].
    simpl. intros Hsx Hsy. destruct sx, sy; try discriminate.
    simpl in H. apply signed_nonneg.
    replace (a + b <? 0) with false in H; [exact H|].
    symmetry. apply Z.ltb_ge. unfold a, b. lia.
Qed.

(** ** [int] and [split] keep to the characters of their input *)

Lemma lstrip_chars (s : string) (c : ascii) :
  In c (chars (lstrip s)) -> In c (chars s).
Proof.
  induction s as [|a s IH]; simpl; [auto|].
  destruct (is_space a); simpl; auto.
Qed.

Lemma rstrip_chars (s : string) (c : ascii) :
  In c (chars (rstrip s)) -> In c (chars s).
Proof.
  induction s as [|a s IH]; simpl; [auto|].
  destruct (rstrip s) as [|b r] eqn:E.
  - destruct (is_space a); simpl; intuition.
  - simpl in *. intuition.
Qed.

Lemma split_chars (sep : ascii) (s tok : string) (c : ascii) :
  In tok (split sep s) -> In c (chars tok) -> In c (chars s).
Proof.
  revert tok. induction s as [|a s IH]; simpl; intros tok Ht Hc.
  - destruct Ht as [<-|[]]. exact Hc.
  - destruct (Ascii.eqb a sep).
    + destruct Ht as [<-|Ht]; [contradiction|]. right. eauto.
    + destruct (split sep s) as [|t rest] eqn:E.
      * destruct Ht as [<-|[]]. simpl in Hc. intuition.
      * destruct Ht as [<-|Ht].
        -- simpl in Hc. destruct Hc as [Hc|Hc]; [now left|].
           right. apply (IH t); [now left | exact Hc].
        -- right. apply (IH tok); [now right | exact Hc].
Qed.

Lemma digit_value_range (c : ascii) (d : Z) :
  digit_value c = Some d -> 0 <= d <= 9.
Proof.
  unfold digit_value.
  destruct ((48 <=? code c) && (code c <=? 57)) eqn:E; [|discriminate].
  intros H. injection H as <-. lia.
Qed.

Lemma int_digits_nonneg (s : string) (acc z : Z) :
  0 <= acc -> int_digits acc s = Some z -> 0 <= z.
Proof.
  remember (String.length s) as n eqn:Hn.
  revert s acc Hn. induction n as [n IH] using lt_wf_ind.
  intros s acc Hn Hacc H. destruct s as [|c s]; simpl in H.
  - injection H as <-. exact Hacc.
  - destruct (digit_value c) as [d|] eqn:Ed.
    + apply digit_value_range in Ed.
      eapply (IH (String.length s)); [subst; simpl; lia|reflexivity| |exact H].
      destruct acc; lia.
    + destruct (Ascii.eqb c "_"); [|discriminate].
      destruct s as [|c' s]; [discriminate|].
      destruct (digit_value c') as [d|] eqn:Ed'; [|discriminate].
      apply digit_value_range in Ed'.
      eapply (IH (String.length s)); [subst; simpl; lia|reflexivity| |exact H].
      destruct acc; lia.
Qed.

Lemma int_unsigned_nonneg (s : string) (z : Z) :
  int_unsigned s = Some z -> 0 <= z.
Proof.
  unfold int_unsigned. destruct s as [|c s]; [discriminate|].
  destruct (digit_value c) as [d|] eqn:Ed; [|discriminate].
  apply digit_value_range in Ed. apply int_digits_nonneg. lia.
Qed.

Lemma int_nonneg (s : string) (z : Z) :
  ~ In "-"%char (chars s) -> int s = Ok z -> 0 <= z.
Proof.
  intros Hs. unfold int.
  destruct (int_of_stripped (rstrip (lstrip s))) as [z'|] eqn:E; [|discriminate].
  intros H. injection H as <-.
  unfold int_of_stripped in E.
  destruct (rstrip (lstrip s)) as [|c r] eqn:Er; [discriminate|].
  destruct (Ascii.eqb c "-") eqn:Ec.
  - exfalso. apply Hs. apply lstrip_chars, rstrip_chars. rewrite Er.
    apply Ascii.eqb_eq in Ec. subst. now left.
  - destruct (Ascii.eqb c "+"); eapply int_unsigned_nonneg; exact E.
Qed.

(** ** What a successful parse is made of *)

Lemma bind_Ok {A B : Type} (r : result A) (k : A -> result B) (b : B) :
  bind r k = Ok b -> exists a, r = Ok a /\ k a = Ok b.
Proof. destruct r; simpl; [eauto | discriminate]. Qed.

Lemma parse_time_body_Ok (v : value) (f : float) :
  parse_time_body v = Ok f ->
  exists str h m s0 s ms h' m' s' ms' frac whole,
    v = VStr str /\ split ":" str = [h; m; s0] /\ split "." s0 = [s; ms] /\
    int h = Ok h' /\ int m = Ok m' /\ int s = Ok s' /\ int ms = Ok ms' /\
    int_truediv ms' 1000 = Ok frac /\
    float_of_int (h' * 3600 + m' * 60 + s') = Ok whole /\
    f = fadd whole frac.
Proof.
  unfold parse_time_body. destruct v as [| | |str]; try discriminate.
  destruct (split ":" str) as [|h [|m [|s0 [|x l]]]] eqn:Ecolon;
    try discriminate.
  destruct (split "." s0) as [|s [|ms [|x l]]] eqn:Edot; try discriminate.
  intros H.
  apply bind_Ok in H. destruct H as [h' [Hh H]].
  apply bind_Ok in H. destruct H as [m' [Hm H]].
  apply bind_Ok in H. destruct H as [s' [Hs H]].
  apply bind_Ok in H. destruct H as [ms' [Hms H]].
  apply bind_Ok in H. destruct H as [frac [Hfrac H]].
  unfold int_add_float in H.
  apply bind_Ok in H. destruct H as [whole [Hwhole H]].
  injection H as <-.
  exists str, h, m, s0, s, ms, h', m', s', ms', frac, whole.
  repeat split; try assumption; try reflexivity.
Qed.

Lemma parse_time_ordered (v : value) : ordered (parse_time v).
Proof.
  unfold parse_time, try_except.
  destruct (parse_time_body v) as [f|e] eqn:E; [|unfold ordered, fzero; congruence].
  apply parse_time_body_Ok in E.
  destruct E as (str & h & m & s0 & s & ms & h' & m' & s' & ms' & frac & whole
                 & _ & _ & _ & _ & _ & _ & _ & Hfrac & Hwhole & ->).
  apply float_of_int_Ok in Hwhole. apply int_truediv_Ok in Hfrac.
  now apply fadd_finite.
Qed.

Lemma nonneg_fle (x : float) : nonneg x = true -> fle fzero x = true.
Proof. destruct x as [[]|[]| |[] ? ?]; simpl; intros H; congruence || reflexivity. Qed.

(* ================================================================== *)
(** * The time-code parser                                              *)
(* ================================================================== *)

Lemma parse_time_Raise (v : value) (e : exn) :
  parse_time_body v = Raise e -> parse_time v = fzero.
Proof. unfold parse_time. now intros ->. Qed.

(** C7: on every malformed input (a missing field, the empty string, a
    wrong number of tokens, a part that is not numeric) [parse_time] returns
    0; the exception raised inside the [try] never leaves the function,
    which is total. *)
Theorem parse_time_malformed (v : value) :
  malformed v -> parse_time v = fzero.
Proof.
  intros M. destruct M as [v Hv| |str Hn|str h m s Hc Hn
                           |str h m s sec ms part Hc Hd Hin Hint].
  - destruct v as [| | |str]; try reflexivity. now elim (Hv str).
  - reflexivity.
  - unfold parse_time, parse_time_body.
    destruct (split ":" str) as [|a [|b [|c [|d l]]]]; try reflexivity.
    now elim Hn.
  - unfold parse_time, parse_time_body. rewrite Hc.
    destruct (split "." s) as [|a [|b [|c l]]]; try reflexivity.
    now elim Hn.
  - unfold parse_time, parse_time_body. rewrite Hc, Hd.
    simpl in Hin.
    destruct Hin as [<-|[<-|[<-|[<-|[]]]]]; rewrite ?Hint; simpl;
      try reflexivity;
      repeat match goal with
             | |- context [int ?t] =>
                 lazymatch t with
                 | part => fail
                 | _ => destruct (int t); simpl; try reflexivity
                 end
             end;
      rewrite ?Hint; reflexivity.
Qed.

Lemma parse_time_malformed_witness :
  malformed (VStr "bad") /\ parse_time (VStr "bad") = fzero.
Proof.
  assert (M : malformed (VStr "bad")).
  { apply wrong_token_count. vm_compute. discriminate. }
  split; [exact M | exact (parse_time_malformed (VStr "bad") M)].
Defined.

(** The worked example of the documentation: 1:02:03.450 is 3723.45. *)
Example parse_time_3723_45 :
  int_truediv 372345 100 = Ok (parse_time (VStr "1:02:03.450")).
Proof. vm_compute. reflexivity. Qed.

Lemma parse_time_negative_hours :
  parse_time (VStr "-1:00:00.000") = float_lit (-3600)
  /\ fle fzero (parse_time (VStr "-1:00:00.000")) = false.
Proof. split; vm_compute; reflexivity. Qed.

(** C9, as amended: [parse_time] returns a non-negative number of seconds
    whenever its input carries no minus sign (and for every input that is
    not a string). *)
Theorem parse_time_nonneg (v : value) :
  unsigned_text v -> fle fzero (parse_time v) = true.
Proof.
  intros Hu. apply nonneg_fle. unfold parse_time, try_except.
  destruct (parse_time_body v) as [f|e] eqn:E; [|reflexivity].
  apply parse_time_body_Ok in E.
  destruct E as (str & h & m & s0 & s & ms & h' & m' & s' & ms' & frac & whole
                 & -> & Hc & Hd & Hh & Hm & Hs & Hms & Hfrac & Hwhole & ->).
  specialize (Hu str eq_refl).
  assert (Hin : forall tok, In tok [h; m; s0] ->
                            ~ In "-"%char (chars tok)).
  { intros tok Ht Hc'. apply Hu. apply (split_chars ":" str tok); [|exact Hc'].
    now rewrite Hc. }
  assert (Hin' : forall tok, In tok [s; ms] -> ~ In "-"%char (chars tok)).
  { intros tok Ht Hc'. apply (Hin s0); [simpl; auto|].
    apply (split_chars "." s0 tok); [|exact Hc']. now rewrite Hd. }
  apply int_nonneg in Hh; [|apply Hin; simpl; auto].
  apply int_nonneg in Hm; [|apply Hin; simpl; auto].
  apply int_nonneg in Hs; [|apply Hin'; simpl; auto].
  apply int_nonneg in Hms; [|apply Hin'; simpl; auto].
  apply float_of_int_Ok in Hwhole. destruct Hwhole as [Fw Sw].
  apply int_truediv_Ok in Hfrac. destruct Hfrac as [Ff Sf].
  replace (h' * 3600 + m' * 60 + s' <? 0) with false in Sw
    by (symmetry; apply Z.ltb_ge; lia).
  replace (ms' <? 0) with false in Sf by (symmetry; apply Z.ltb_ge; lia).
  apply fadd_finite; auto using signed_nonneg.
Qed.

Lemma parse_time_nonneg_witness :
  unsigned_text (VStr "1:02:03.450")
  /\ fle fzero (parse_time (VStr "1:02:03.450")) = true.
Proof.
  assert (U : unsigned_text (VStr "1:02:03.450")).
  { intros str E. injection E as <-. vm_compute.
    intros H. repeat (destruct H as [H|H]; [discriminate H|]). exact H. }
  split; [exact U | exact (parse_time_nonneg _ U)].
Defined.

(** C2: the formatter truncates [(timestamp * 1000) % 1000] instead of
    rounding it.  For the timestamp of 1001 milliseconds the product is
    1000.9999999999999, the text is 00:00:01.000, and parsing it gives 1.0,
    not the timestamp. *)
Theorem time_str_round_trip_fails :
  let x := parse_time (VStr "0:00:01.001") in
  int_truediv 1001 1000 = Ok x
  /\ time_str x = Ok "00:00:01.000"%string
  /\ parse_time (VStr "00:00:01.000") = float_lit 1
  /\ feq (parse_time (VStr "00:00:01.000")) x = false.
Proof. repeat split; vm_compute; reflexivity. Qed.

(* ================================================================== *)
(** * Loops that append                                                 *)
(* ================================================================== *)

Lemma fold_left_nested {A B S : Type} (f : S -> B -> S) (g : A -> list B)
    (l : list A) (s : S) :
  fold_left (fun acc x => fold_left f (g x) acc) l s
  = fold_left f (flat_map g l) s.
Proof.
  revert s. induction l as [|a l IH]; intros s; simpl; [reflexivity|].
  now rewrite fold_left_app, IH.
Qed.

Lemma fold_left_filter_append {A B : Type} (p : A -> bool) (f : A -> B)
    (l : list A) (acc : list B) :
  fold_left (fun acc x => if p x then acc ++ [f x] else acc) l acc
  = acc ++ map f (filter p l).
Proof.
  revert acc. induction l as [|a l IH]; intros acc; simpl.
  - now rewrite app_nil_r.
  - rewrite IH. destruct (p a); simpl; [|reflexivity].
    now rewrite <- app_assoc.
Qed.

Lemma fold_left_nested_filter_append {A B C : Type} (g : A -> list B)
    (p : A -> B -> bool) (f : A -> B -> C) (l : list A) (acc : list C) :
  fold_left
    (fun acc a =>
       fold_left (fun acc b => if p a b then acc ++ [f a b] else acc)
                 (g a) acc)
    l acc
  = acc ++ flat_map (fun a => map (f a) (filter (p a) (g a))) l.
Proof.
  revert acc. induction l as [|a l IH]; intros acc; simpl.
  - now rewrite app_nil_r.
  - rewrite fold_left_filter_append, IH. now rewrite <- app_assoc.
Qed.

Lemma fold_left_extend {A B : Type} (p : A -> bool) (f : A -> list B)
    (l : list A) (acc : list B) :
  fold_left (fun acc x => if p x then acc ++ f x else acc) l acc
  = acc ++ flat_map f (filter p l).
Proof.
  revert acc. induction l as [|a l IH]; intros acc; simpl.
  - now rewrite app_nil_r.
  - rewrite IH. destruct (p a); simpl; [|reflexivity].
    now rewrite <- app_assoc.
Qed.

(* ================================================================== *)
(** * The timestamp collector                                           *)
(* ================================================================== *)

Lemma add_pairs {A : Type} (a b : A -> float) (l : list A) (s : list float) :
  fold_left (fun ts i => set_add (set_add ts (a i)) (b i)) l s
  = fold_left set_add (flat_map (fun i => [a i; b i]) l) s.
Proof. exact (fold_left_nested set_add (fun i => [a i; b i]) l s). Qed.

Lemma add_nested_pairs {A B : Type} (g : A -> list B) (a b : B -> float)
    (l : list A) (s : list float) :
  fold_left
    (fun ts x => fold_left (fun ts i => set_add (set_add ts (a i)) (b i))
                           (g x) ts)
    l s
  = fold_left set_add
      (flat_map (fun x => flat_map (fun i => [a i; b i]) (g x)) l) s.
Proof.
  revert s. induction l as [|x l IH]; intros s; simpl; [reflexivity|].
  now rewrite add_pairs, fold_left_app, IH.
Qed.

Lemma collect_timestamps_eq (vi : insights) :
  collect_timestamps vi = sorted (fold_left set_add (boundaries vi) []).
Proof.
  unfold collect_timestamps, boundaries.
  unfold add_shot_timestamps, add_transcript_timestamps, add_label_timestamps.
  rewrite !fold_left_app.
  rewrite add_pairs, !add_nested_pairs. reflexivity.
Qed.

Lemma boundaries_ordered (vi : insights) : Forall ordered (boundaries vi).
Proof.
  unfold boundaries, label_boundaries, transcript_boundaries, shot_boundaries.
  rewrite !Forall_app. repeat split; apply Forall_forall; intros t Ht;
    repeat (apply in_flat_map in Ht; destruct Ht as [? [_ Ht]]);
    simpl in Ht; destruct Ht as [<-|[<-|[]]]; apply parse_time_ordered.
Qed.

Lemma StronglySorted_distinct (l : list float) :
  StronglySorted ltf l -> distinct l.
Proof.
  induction 1 as [|a l Hs IH Ha]; constructor; [|exact IH].
  rewrite Forall_forall in Ha |- *. intros t Ht.
  apply flt_not_feq. now apply Ha.
Qed.

Lemma StronglySorted_NoDup (l : list float) :
  StronglySorted ltf l -> NoDup l.
Proof.
  induction 1 as [|a l Hs IH Ha]; constructor; [|exact IH].
  intros Hin. rewrite Forall_forall in Ha. specialize (Ha a Hin).
  unfold ltf in Ha. rewrite flt_irrefl in Ha. discriminate.
Qed.

(** C3: the collected timestamps are in strictly ascending order, hence
    without duplicates; each of them is a parsed boundary of a label
    appearance, a transcript instance or a shot, and each such boundary is
    among them (as a float); faces and OCR entries contribute nothing.  Two
    shots [0, 2] and [2, 5] give [0, 2, 5]. *)
Theorem collect_timestamps_sorted_boundaries (vi : insights) :
  StronglySorted ltf (collect_timestamps vi)
  /\ distinct (collect_timestamps vi)
  /\ NoDup (collect_timestamps vi)
  /\ (forall t, In t (collect_timestamps vi) -> In t (boundaries vi))
  /\ (forall b, In b (boundaries vi) ->
                exists t, In t (collect_timestamps vi) /\ feq b t = true)
  /\ (forall fs os,
         collect_timestamps
           {| labels := labels vi; transcript := transcript vi;
              shots := shots vi; faces := fs; ocr_entries := os |}
         = collect_timestamps vi)
  /\ collect_timestamps Examples.two_shots
     = [float_lit 0; float_lit 2; float_lit 5].
Proof.
  assert (Hs : StronglySorted ltf (collect_timestamps vi)).
  { rewrite collect_timestamps_eq. apply sorted_StronglySorted.
    - apply add_all_ordered; [apply boundaries_ordered | constructor].
    - apply add_all_distinct. constructor. }
  split; [exact Hs|].
  split; [now apply StronglySorted_distinct|].
  split; [now apply StronglySorted_NoDup|].
  split; [|split; [|split]].
  - intros t Ht. rewrite collect_timestamps_eq in Ht.
    apply (proj1 (sorted_In t _)) in Ht. apply add_all_In in Ht.
    destruct Ht as [[]|Ht]. exact Ht.
  - intros b Hb. rewrite collect_timestamps_eq.
    destruct (add_all_member (boundaries vi) [] b (boundaries_ordered vi) Hb)
      as [t [Ht Hbt]].
    exists t. split; [now apply sorted_In | exact Hbt].
  - reflexivity.
  - vm_compute. reflexivity.
Qed.

(* ================================================================== *)
(** * The annotation correlator                                         *)
(* ================================================================== *)

Lemma activeb_active (a b : option value) (t : float) :
  activeb a b t = true <-> active a b t.
Proof. unfold activeb, active. apply andb_true_iff. Qed.

Lemma active_labels_eq (vi : insights) (t : float) :
  active_labels vi t
  = flat_map
      (fun label =>
         map (fun instance =>
                {| entry_name := get (label_name label);
                   entry_confidence :=
                     get_default (appearance_confidence instance) (VInt 0) |})
             (filter (fun instance =>
                        activeb (startTime instance) (endTime instance) t)
                     (get_default (appearances label) [])))
      (get_default (labels vi) []).
Proof.
  unfold active_labels.
  exact (fold_left_nested_filter_append
           (fun label => get_default (appearances label) [])
           (fun _ instance => activeb (startTime instance) (endTime instance) t)
           (fun label instance =>
              {| entry_name := get (label_name label);
                 entry_confidence :=
                   get_default (appearance_confidence instance) (VInt 0) |})
           (get_default (labels vi) []) []).
Qed.

Lemma active_faces_eq (vi : insights) (t : float) :
  active_faces vi t
  = flat_map
      (fun face =>
         map (fun instance =>
                {| entry_name := get (face_name face);
                   entry_confidence :=
                     get_default (confidence instance) (VInt 0) |})
             (filter (fun instance => activeb (start instance) (end_ instance) t)
                     (get_default (face_instances face) [])))
      (get_default (faces vi) []).
Proof.
  unfold active_faces.
  exact (fold_left_nested_filter_append
           (fun face => get_default (face_instances face) [])
           (fun _ instance => activeb (start instance) (end_ instance) t)
           (fun face instance =>
              {| entry_name := get (face_name face);
                 entry_confidence :=
                   get_default (confidence instance) (VInt 0) |})
           (get_default (faces vi) []) []).
Qed.

Lemma active_ocr_eq (vi : insights) (t : float) :
  active_ocr vi t
  = flat_map
      (fun ocr =>
         map (fun _ : instance =>
                {| entry_text := get (text ocr);
                   text_confidence :=
                     get_default (ocr_confidence ocr) (VInt 0) |})
             (filter (fun instance => activeb (start instance) (end_ instance) t)
                     (get_default (ocr_instances ocr) [])))
      (get_default (ocr_entries vi) []).
Proof.
  unfold active_ocr.
  exact (fold_left_nested_filter_append
           (fun ocr => get_default (ocr_instances ocr) [])
           (fun _ instance => activeb (start instance) (end_ instance) t)
           (fun ocr _ =>
              {| entry_text := get (text ocr);
                 text_confidence :=
                   get_default (ocr_confidence ocr) (VInt 0) |})
           (get_default (ocr_entries vi) []) []).
Qed.

Lemma active_shot_tags_eq (vi : insights) (t : float) :
  active_shot_tags vi t
  = flat_map (fun shot => get_default (tags shot) [])
      (filter (fun shot => activeb (shot_start shot) (shot_end shot) t)
              (get_default (shots vi) [])).
Proof.
  unfold active_shot_tags.
  exact (fold_left_extend
           (fun shot => activeb (shot_start shot) (shot_end shot) t)
           (fun shot => get_default (tags shot) [])
           (get_default (shots vi) []) []).
Qed.

(** C1: in each of the four categories an interval counts as active at [t]
    exactly when [start <= t <= end]: an entry is among the annotations of
    the keyframe if and only if it comes from an interval with
    [start <= t] and [t <= end].  A label on [1.0, 3.0] is reported at 1.0
    and at 3.0. *)
Theorem active_iff_closed_interval (vi : insights) (t : float) :
  (forall e, In e (active_labels vi t) <->
     exists label instance,
       In label (get_default (labels vi) [])
       /\ In instance (get_default (appearances label) [])
       /\ active (startTime instance) (endTime instance) t
       /\ e = {| entry_name := get (label_name label);
                 entry_confidence :=
                   get_default (appearance_confidence instance) (VInt 0) |})
  /\ (forall e, In e (active_faces vi t) <->
     exists face instance,
       In face (get_default (faces vi) [])
       /\ In instance (get_default (face_instances face) [])
       /\ active (start instance) (end_ instance) t
       /\ e = {| entry_name := get (face_name face);
                 entry_confidence :=
                   get_default (confidence instance) (VInt 0) |})
  /\ (forall e, In e (active_ocr vi t) <->
     exists ocr instance,
       In ocr (get_default (ocr_entries vi) [])
       /\ In instance (get_default (ocr_instances ocr) [])
       /\ active (start instance) (end_ instance) t
       /\ e = {| entry_text := get (text ocr);
                 text_confidence :=
                   get_default (ocr_confidence ocr) (VInt 0) |})
  /\ (forall tag, In tag (active_shot_tags vi t) <->
     exists shot,
       In shot (get_default (shots vi) [])
       /\ active (shot_start shot) (shot_end shot) t
       /\ In tag (get_default (tags shot) []))
  /\ active_labels Examples.one_label (float_lit 1) = [Examples.dog]
  /\ active_labels Examples.one_label (float_lit 3) = [Examples.dog].
Proof.
  split; [|split; [|split; [|split; [|split]]]];
    [intros e; split | intros e; split | intros e; split | intros tag; split
    | vm_compute; reflexivity | vm_compute; reflexivity ].
  - rewrite active_labels_eq. intros H.
    apply in_flat_map in H. destruct H as [label [Hl H]].
    apply in_map_iff in H. destruct H as [i [<- H]].
    apply filter_In in H. destruct H as [Hi Ha].
    exists label, i. rewrite <- activeb_active. auto.
  - intros (label & i & Hl & Hi & Ha & ->). rewrite active_labels_eq.
    apply in_flat_map. exists label. split; [exact Hl|].
    apply in_map_iff. exists i. split; [reflexivity|].
    apply filter_In. split; [exact Hi | now apply activeb_active].
  - rewrite active_faces_eq. intros H.
    apply in_flat_map in H. destruct H as [face [Hl H]].
    apply in_map_iff in H. destruct H as [i [<- H]].
    apply filter_In in H. destruct H as [Hi Ha].
    exists face, i. rewrite <- activeb_active. auto.
  - intros (face & i & Hl & Hi & Ha & ->). rewrite active_faces_eq.
    apply in_flat_map. exists face. split; [exact Hl|].
    apply in_map_iff. exists i. split; [reflexivity|].
    apply filter_In. split; [exact Hi | now apply activeb_active].
  - rewrite active_ocr_eq. intros H.
    apply in_flat_map in H. destruct H as [o [Hl H]].
    apply in_map_iff in H. destruct H as [i [<- H]].
    apply filter_In in H. destruct H as [Hi Ha].
    exists o, i. rewrite <- activeb_active. auto.
  - intros (o & i & Hl & Hi & Ha & ->). rewrite active_ocr_eq.
    apply in_flat_map. exists o. split; [exact Hl|].
    apply in_map_iff. exists i. split; [reflexivity|].
    apply filter_In. split; [exact Hi | now apply activeb_active].
  - rewrite active_shot_tags_eq. intros H.
    apply in_flat_map in H. destruct H as [shot [Hs Ht]].
    apply filter_In in Hs. destruct Hs as [Hs Ha].
    exists shot. rewrite <- activeb_active. auto.
  - intros (shot & Hs & Ha & Ht). rewrite active_shot_tags_eq.
    apply in_flat_map. exists shot. split; [|exact Ht].
    apply filter_In. split; [exact Hs | now apply activeb_active].
Qed.

(** The OCR entry of [Examples.one_ocr] is reported with its own
    confidence 1.0; the confidence 0.5 of its active instance is not
    reported. *)
Lemma ocr_confidence_not_of_instance :
  ~ (forall e, In e (active_ocr Examples.one_ocr (float_lit 1)) ->
       exists ocr instance,
         In ocr (get_default (ocr_entries Examples.one_ocr) [])
         /\ In instance (get_default (ocr_instances ocr) [])
         /\ active (start instance) (end_ instance) (float_lit 1)
         /\ text_confidence e = get_default (confidence instance) (VInt 0)).
Proof.
  intros H.
  destruct (H {| entry_text := VStr "EXIT"; text_confidence := VFloat fone |})
    as (o & i & Ho & Hi & _ & Hc).
  - vm_compute. now left.
  - simpl in Ho. destruct Ho as [<-|[]].
    simpl in Hi. destruct Hi as [<-|[]].
    simpl in Hc. discriminate Hc.
Qed.

(** C4, as amended: every category reports one entry per active interval,
    in document order.  A label or face entry pairs the name of the entity
    with the confidence of that interval (0 when absent); an OCR entry
    pairs the text of the entity with the confidence of the entity itself
    (0 when absent); an active shot contributes its tags. *)
Theorem active_entries_per_interval (vi : insights) (t : float) :
  active_labels vi t
  = flat_map
      (fun label =>
         map (fun instance =>
                {| entry_name := get (label_name label);
                   entry_confidence :=
                     get_default (appearance_confidence instance) (VInt 0) |})
             (filter (fun instance =>
                        activeb (startTime instance) (endTime instance) t)
                     (get_default (appearances label) [])))
      (get_default (labels vi) [])
  /\ active_faces vi t
  = flat_map
      (fun face =>
         map (fun instance =>
                {| entry_name := get (face_name face);
                   entry_confidence :=
                     get_default (confidence instance) (VInt 0) |})
             (filter (fun instance => activeb (start instance) (end_ instance) t)
                     (get_default (face_instances face) [])))
      (get_default (faces vi) [])
  /\ active_ocr vi t
  = flat_map
      (fun ocr =>
         map (fun _ : instance =>
                {| entry_text := get (text ocr);
                   text_confidence :=
                     get_default (ocr_confidence ocr) (VInt 0) |})
             (filter (fun instance => activeb (start instance) (end_ instance) t)
                     (get_default (ocr_instances ocr) [])))
      (get_default (ocr_entries vi) [])
  /\ active_shot_tags vi t
  = flat_map (fun shot => get_default (tags shot) [])
      (filter (fun shot => activeb (shot_start shot) (shot_end shot) t)
              (get_default (shots vi) [])).
Proof.
  repeat split.
  - apply active_labels_eq.
  - apply active_faces_eq.
  - apply active_ocr_eq.
  - apply active_shot_tags_eq.
Qed.

(* ================================================================== *)
(** * The keyframe builder                                              *)
(* ================================================================== *)

Section BuilderFacts.

Context {frame : Type}.
Variable env : environment frame.
Variable cap : VideoCapture frame.
Variable thumbnails_dir : string.
Variable vi : insights.

Let step := keyframe_step env cap thumbnails_dir vi.

Lemma make_keyframe_Ok (i : nat) (t : float) (kf : keyframe_data) :
  make_keyframe env thumbnails_dir vi i t = Ok kf ->
  frame_index kf = i /\ time_str t = Ok (start_time kf)
  /\ end_time kf = start_time kf
  /\ kf_labels kf = active_labels vi t /\ kf_faces kf = active_faces vi t
  /\ ocr_text kf = active_ocr vi t /\ shot_tags kf = active_shot_tags vi t.
Proof.
  unfold make_keyframe. destruct (time_str t) as [str|e]; simpl; [|discriminate].
  intros H. injection H as <-. simpl. repeat split; reflexivity.
Qed.


Lemma step_Ok (acc acc' : list keyframe_data) (i : nat) (t : float) :
  step acc (i, t) = Ok acc' ->
  (readable cap t = false /\ acc' = acc)
  \/ (readable cap t = true
      /\ exists kf, make_keyframe env thumbnails_dir vi i t = Ok kf
                    /\ acc' = acc ++ [kf]).
Proof.
  unfold step, keyframe_step, readable.
  destruct (frame_number cap t) as [n|e]; simpl; [|discriminate].
  destruct (read_at cap n) as [f|].
  - intros H. right. split; [reflexivity|].
    destruct (make_keyframe env thumbnails_dir vi i t) as [kf|e];
      simpl in H; [|discriminate].
    injection H as <-. eauto.
  - intros H. injection H as <-. now left.
Qed.


Lemma loop_Ok (items : list (nat * float)) (acc kfs : list keyframe_data) :
  for_each step items acc = Ok kfs ->
  exists new,
    kfs = acc ++ new
    /\ Forall2 (fun kf it =>
                  make_keyframe env thumbnails_dir vi (fst it) (snd it) = Ok kf)
               new (filter (fun it => readable cap (snd it)) items).
Proof.
  revert acc.
  induction items as [|[i t] items IH]; intros acc H; cbn [for_each] in H.
  - injection H as <-. exists []. split; [now rewrite app_nil_r | constructor].
  - destruct (step acc (i, t)) as [acc1|e] eqn:E; cbn [bind] in H;
      [|discriminate].
    apply step_Ok in E. apply IH in H. destruct H as [new [-> HF]].
    cbn [filter snd]. destruct E as [[-> ->]|[-> [kf [Hkf ->]]]].
    + exists new. now split.
    + exists (kf :: new). split; [now rewrite <- app_assoc|].
      constructor; assumption.
Qed.

End BuilderFacts.

Lemma combine_seq_In {A : Type} (l : list A) (k i : nat) (t : A) :
  In (i, t) (combine (seq k (List.length l)) l) ->
  (k <= i)%nat /\ nth_error l (i - k) = Some t.
Proof.
  revert k. induction l as [|a l IH]; intros k H; simpl in H; [contradiction|].
  destruct H as [H|H].
  - injection H as <- <-. split; [lia|]. now rewrite Nat.sub_diag.
  - apply IH in H. destruct H as [Hk Hn]. split; [lia|].
    replace (i - k)%nat with (S (i - S k)) by lia. exact Hn.
Qed.

Lemma enumerate_positions_sorted {A : Type} (p : nat * A -> bool) (l : list A)
    (k : nat) :
  StronglySorted lt (map fst (filter p (combine (seq k (List.length l)) l))).
Proof.
  revert k. induction l as [|a l IH]; intros k; simpl; [constructor|].
  assert (Hall : Forall (lt k)
            (map fst (filter p (combine (seq (S k) (List.length l)) l)))).
  { apply Forall_forall. intros i Hi. apply in_map_iff in Hi.
    destruct Hi as [[j t] [<- Hj]]. apply filter_In in Hj.
    destruct Hj as [Hj _]. apply combine_seq_In in Hj. simpl. lia. }
  destruct (p (k, a)); simpl; [constructor; [apply IH | exact Hall] | apply IH].
Qed.

Lemma Forall2_positions {frame : Type} (env : environment frame)
    (dir : string) (vi : insights) (kfs : list keyframe_data)
    (items : list (nat * float)) :
  Forall2 (fun kf it => make_keyframe env dir vi (fst it) (snd it) = Ok kf)
          kfs items ->
  map frame_index kfs = map fst items.
Proof.
  induction 1 as [|kf it kfs items H _ IH]; simpl; [reflexivity|].
  apply make_keyframe_Ok in H. destruct H as [-> _]. now rewrite IH.
Qed.

Lemma Forall2_In_l {A B : Type} (R : A -> B -> Prop) (l : list A)
    (l' : list B) (a : A) :
  Forall2 R l l' -> In a l -> exists b, In b l' /\ R a b.
Proof.
  induction 1 as [|x y l l' H _ IH]; simpl; [contradiction|].
  intros [<-|Ha]; [eauto|]. destruct (IH Ha) as [b [Hb HR]]. eauto.
Qed.

Lemma extract_keyframes_Ok {frame : Type} (env : environment frame)
    (md : metadata) (kfs : list keyframe_data) :
  extract_keyframes env md = Ok kfs ->
  exists video_path sanitized_name vi,
    locate_video env md = Ok (video_path, sanitized_name)
    /\ insights_of md = Ok vi
    /\ isOpened (open_video env video_path) = true
    /\ for_each (keyframe_step env (open_video env video_path)
                   (path_join "thumbnails" sanitized_name) vi)
                (enumerate (collect_timestamps vi)) [] = Ok kfs.
Proof.
  unfold extract_keyframes. intros H.
  apply bind_Ok in H. destruct H as [[video_path sanitized_name] [HL H]].
  apply bind_Ok in H. destruct H as [vi [HI H]].
  unfold sample_keyframes in H.
  destruct (isOpened (open_video env video_path)) eqn:O; simpl in H;
    [|discriminate].
  exists video_path, sanitized_name, vi. auto.
Qed.

(** C10: [frame_index] is the position of the keyframe's timestamp in the
    full sorted list of collected timestamps: the indices returned are
    those of the timestamps whose frame was decoded, in order.  They are
    strictly increasing, and the index of a timestamp whose frame could not
    be decoded is missing from them. *)
Theorem frame_index_is_timestamp_position {frame : Type}
    (env : environment frame) (md : metadata) (video_path sanitized_name : string)
    (vi : insights) (kfs : list keyframe_data) :
  locate_video env md = Ok (video_path, sanitized_name) ->
  insights_of md = Ok vi ->
  extract_keyframes env md = Ok kfs ->
  let cap := open_video env video_path in
  let timestamps := collect_timestamps vi in
  map frame_index kfs
  = map fst (filter (fun it => readable cap (snd it)) (enumerate timestamps))
  /\ (forall kf, In kf kfs ->
        exists t, nth_error timestamps (frame_index kf) = Some t
                  /\ readable cap t = true
                  /\ time_str t = Ok (start_time kf))
  /\ StronglySorted lt (map frame_index kfs)
  /\ (forall i t, nth_error timestamps i = Some t ->
                  readable cap t = false ->
                  ~ In i (map frame_index kfs)).
Proof.
  intros HL HI H cap timestamps.
  apply extract_keyframes_Ok in H.
  destruct H as (vp & sn & vi' & HL' & HI' & _ & H).
  rewrite HL in HL'. injection HL' as <- <-.
  rewrite HI in HI'. injection HI' as <-.
  apply loop_Ok in H. destruct H as [new [-> HF]]. simpl.
  fold cap timestamps in HF.
  pose proof (Forall2_positions _ _ _ _ _ HF) as Hpos.
  assert (Hin : forall i, In i (map frame_index new) ->
            exists t, nth_error timestamps i = Some t /\ readable cap t = true).
  { intros i Hi. rewrite Hpos in Hi. apply in_map_iff in Hi.
    destruct Hi as [[j t] [<- Hj]]. apply filter_In in Hj.
    destruct Hj as [Hj Hr]. apply combine_seq_In in Hj.
    destruct Hj as [_ Hj]. rewrite Nat.sub_0_r in Hj. simpl. eauto. }
  split; [exact Hpos|]. split; [|split].
  - intros kf Hkf.
    destruct (Forall2_In_l _ _ _ _ HF Hkf) as [[j t] [Hj Hmk]].
    apply filter_In in Hj. destruct Hj as [Hj Hr].
    apply combine_seq_In in Hj. destruct Hj as [_ Hj].
    rewrite Nat.sub_0_r in Hj. simpl in Hmk, Hr.
    apply make_keyframe_Ok in Hmk. destruct Hmk as (-> & Ht & _).
    exists t. auto.
  - rewrite Hpos. apply enumerate_positions_sorted.
  - intros i t Hn Hr Hi. destruct (Hin i Hi) as [t' [Hn' Hr']].
    congruence.
Qed.

Lemma frame_index_is_timestamp_position_witness :
  locate_video (Examples.studio Examples.damaged)
               (Examples.document Examples.two_shots)
  = Ok ("data/raw_videos/clip.mp4", "clip")%string
  /\ insights_of (Examples.document Examples.two_shots) = Ok Examples.two_shots
  /\ extract_keyframes (Examples.studio Examples.damaged)
                       (Examples.document Examples.two_shots)
     = Ok Examples.damaged_keyframes
  /\ map frame_index Examples.damaged_keyframes = [0; 2]%nat
  /\ StronglySorted lt (map frame_index Examples.damaged_keyframes).
Proof.
  assert (HL : locate_video (Examples.studio Examples.damaged)
                            (Examples.document Examples.two_shots)
               = Ok ("data/raw_videos/clip.mp4", "clip")%string)
    by (vm_compute; reflexivity).
  assert (HI : insights_of (Examples.document Examples.two_shots)
               = Ok Examples.two_shots) by reflexivity.
  assert (HE : extract_keyframes (Examples.studio Examples.damaged)
                                 (Examples.document Examples.two_shots)
               = Ok Examples.damaged_keyframes) by (vm_compute; reflexivity).
  repeat split; try assumption; try reflexivity.
  exact (proj1 (proj2 (proj2
           (frame_index_is_timestamp_position _ _ _ _ _ _ HL HI HE)))).
Defined.








(** A frame number of 2^63 or more: the shot that ends after 10^14 hours is
    sought at frame number 10800000000000000000, where the capture reads
    its first frame, and the keyframe is emitted. *)
Example beyond_position_limit_is_sampled :
  frame_number (Examples.film 100 (float_lit 30))
    (parse_time (VStr "100000000000000:00:00.000"))
  = Ok 10800000000000000000
  /\ position_limit <= 10800000000000000000
  /\ exists kfs,
       extract_keyframes (Examples.studio (Examples.film 100 (float_lit 30)))
                         (Examples.document Examples.long_shot) = Ok kfs
       /\ map frame_index kfs = [0; 1; 2]%nat
       /\ map start_time kfs
          = ["00:00:00.000"; "00:00:02.000";
             "100000000000000:00:00.000"]%string.
Proof.
  split; [vm_compute; reflexivity|]. split; [vm_compute; congruence|].
  eexists. split; [vm_compute; reflexivity|].
  split; reflexivity.
Qed.

(** On a film of 100 frames at 30 frames per second the shot boundary at
    5 seconds is past the end: the build returns the two keyframes before
    it. *)
Example short_film_partial_result :
  extract_keyframes (Examples.studio (Examples.film 100 (float_lit 30)))
                    (Examples.document Examples.two_shots)
  = Ok Examples.short_film_keyframes
  /\ map frame_index Examples.short_film_keyframes = [0; 1]%nat
  /\ map start_time Examples.short_film_keyframes
     = ["00:00:00.000"; "00:00:02.000"]%string.
Proof. repeat split; vm_compute; reflexivity. Qed.






(** A source that reports -30 frames per second is sampled all the same:
    the timestamps of the two shots are sought at frame numbers 0, -60 and
    -150, and each gives a keyframe. *)
Example negative_fps_source_is_sampled :
  map (frame_number (Examples.film 10 (float_lit (-30))))
      (collect_timestamps Examples.two_shots)
  = [Ok 0; Ok (-60); Ok (-150)]
  /\ exists kfs,
       extract_keyframes
         (Examples.studio (Examples.film 10 (float_lit (-30))))
         (Examples.document Examples.two_shots) = Ok kfs
       /\ map frame_index kfs = [0; 1; 2]%nat.
Proof.
  split; [vm_compute; reflexivity|].
  eexists. split; [vm_compute; reflexivity | reflexivity].
Qed.

(* ================================================================== *)
(** * The scene-change detector                                         *)
(* ================================================================== *)

Section SceneChangeFacts.

Import metadata_extraction.

Context {frame gray : Type}.
Variable VideoCapture : string -> list frame.
Variable cvtColor : frame -> gray.
Variable absdiff : gray -> gray -> gray.
Variable mean : gray -> float.
Variable threshold : float.

Let score (cur : frame) (prev : gray) : float :=
  mean (absdiff (cvtColor cur) prev).

Lemma prev_of_shift (prev : option gray) (f : frame) (stream : list frame)
    (j : nat) :
  prev_of cvtColor prev (f :: stream) (S j)
  = prev_of cvtColor (Some (cvtColor f)) stream j.
Proof. destruct j; reflexivity. Qed.

Lemma scan_In (stream : list frame) :
  forall (prev : option gray) (idx : Z) (acc : list keyframe) (kf : keyframe),
    In kf (scan cvtColor absdiff mean threshold stream prev idx acc) <->
    In kf acc
    \/ exists j cur pv,
         nth_error stream j = Some cur
         /\ prev_of cvtColor prev stream j = Some pv
         /\ fgt (score cur pv) threshold = true
         /\ kf = keyframe_of (idx + Z.of_nat j) (score cur pv).
Proof.
  induction stream as [|f stream IH]; intros prev idx acc kf.
  - simpl. split; [now left|]. intros [H|(j & cur & pv & Hj & _)]; [exact H|].
    destruct j; discriminate Hj.
  - cbn [scan]. rewrite IH. split.
    + intros [H|(j & cur & pv & Hj & Hp & Hgt & ->)].
      * destruct prev as [p|]; [|now left].
        destruct (fgt (mean (absdiff (cvtColor f) p)) threshold) eqn:G;
          [|now left].
        apply in_app_or in H. destruct H as [H|[<-|[]]]; [now left|].
        right. exists 0%nat, f, p. repeat split; try assumption.
        unfold keyframe_of, score. now rewrite Z.add_0_r.
      * right. exists (S j), cur, pv. rewrite prev_of_shift.
        repeat split; try assumption.
        f_equal. lia.
    + intros [H|(j & cur & pv & Hj & Hp & Hgt & ->)].
      * left. destruct prev as [p|]; [|exact H].
        destruct (fgt (mean (absdiff (cvtColor f) p)) threshold);
          [apply in_or_app; now left | exact H].
      * destruct j as [|j].
        -- left. simpl in Hj, Hp. injection Hj as <-. subst prev.
           unfold score in Hgt. rewrite Hgt. apply in_or_app. right. left.
           unfold keyframe_of, score. now rewrite Z.add_0_r.
        -- right. exists j, cur, pv. rewrite prev_of_shift in Hp.
           repeat split; try assumption. f_equal. lia.
Qed.

Lemma scan_sorted (stream : list frame) :
  forall (prev : option gray) (idx : Z) (acc : list keyframe),
  exists new,
    scan cvtColor absdiff mean threshold stream prev idx acc = acc ++ new
    /\ StronglySorted Z.lt (map frame_index new)
    /\ Forall (fun kf => idx <= frame_index kf) new.
Proof.
  induction stream as [|f stream IH]; intros prev idx acc.
  - exists []. simpl. rewrite app_nil_r. repeat split; constructor.
  - cbn [scan].
    set (acc' := match prev with Some p => _ | None => acc end).
    destruct (IH (Some (cvtColor f)) (idx + 1) acc') as (new & -> & Hs & Hge).
    assert (Hge' : Forall (fun kf => idx <= frame_index kf) new).
    { eapply Forall_impl; [|exact Hge]. simpl. intros; lia. }
    assert (Hacc : acc' = acc \/ exists d, acc' = acc ++ [keyframe_of idx d]).
    { unfold acc'. destruct prev as [p|]; [|now left].
      destruct (fgt _ threshold); [right; eexists; reflexivity | now left]. }
    destruct Hacc as [->|[d ->]].
    + exists new. auto.
    + exists (keyframe_of idx d :: new). rewrite <- app_assoc.
      split; [reflexivity|]. split.
      * simpl. constructor; [exact Hs|].
        apply Forall_forall. intros i Hi. apply in_map_iff in Hi.
        destruct Hi as [kf [<- Hkf]]. rewrite Forall_forall in Hge.
        specialize (Hge kf Hkf). simpl in Hge. lia.
      * constructor; [simpl; lia | exact Hge'].
Qed.

(** C6: a keyframe is emitted for frame [i] exactly when [i >= 1] and the
    mean of the absolute difference between the grayscale of frame [i] and
    that of frame [i - 1] -- the frame just before it, whether or not that
    one was emitted -- is strictly above the threshold.  Frame 0 is never
    emitted, and the frame indices returned are strictly increasing.  With
    the default threshold 40, three equal frames followed by a bright one
    give one keyframe, at index 3. *)
Theorem scene_change_keyframes (video_path : string) :
  let frames := VideoCapture video_path in
  let keyframes :=
    extract_keyframes VideoCapture cvtColor absdiff mean video_path threshold in
  (forall kf, In kf keyframes <->
     exists i cur prev,
       (1 <= i)%nat
       /\ nth_error frames i = Some cur
       /\ nth_error frames (i - 1) = Some prev
       /\ fgt (mean (absdiff (cvtColor cur) (cvtColor prev))) threshold = true
       /\ kf = keyframe_of (Z.of_nat i)
                  (mean (absdiff (cvtColor cur) (cvtColor prev))))
  /\ (forall kf, In kf keyframes -> frame_index kf <> 0)
  /\ StronglySorted Z.lt (map frame_index keyframes)
  /\ map frame_index
       (extract_keyframes Examples.flash (fun img => img)
          Examples.absdiff_pixels Examples.mean_pixels "flash.mp4"
          default_threshold)
     = [3].
Proof.
  intros frames keyframes.
  assert (Hiff : forall kf, In kf keyframes <->
     exists i cur prev,
       (1 <= i)%nat
       /\ nth_error frames i = Some cur
       /\ nth_error frames (i - 1) = Some prev
       /\ fgt (mean (absdiff (cvtColor cur) (cvtColor prev))) threshold = true
       /\ kf = keyframe_of (Z.of_nat i)
                  (mean (absdiff (cvtColor cur) (cvtColor prev)))).
  { intros kf. unfold keyframes, extract_keyframes. fold frames.
    rewrite scan_In. split.
    - intros [[]|(j & cur & pv & Hj & Hp & Hgt & ->)].
      destruct j as [|j]; [discriminate Hp|]. simpl in Hp.
      destruct (nth_error frames j) as [prev|] eqn:Ej; [|discriminate Hp].
      injection Hp as <-.
      exists (S j), cur, prev. simpl. rewrite Nat.sub_0_r.
      repeat split; try assumption. lia.
    - intros (i & cur & prev & Hi & Hc & Hp & Hgt & ->). right.
      destruct i as [|j]; [lia|]. simpl in Hp. rewrite Nat.sub_0_r in Hp.
      exists (S j), cur, (cvtColor prev). simpl. rewrite Hp.
      repeat split; assumption. }
  split; [exact Hiff|]. split; [|split].
  - intros kf Hkf. apply Hiff in Hkf.
    destruct Hkf as (i & cur & prev & Hi & _ & _ & _ & ->). simpl. lia.
  - unfold keyframes, extract_keyframes.
    destruct (scan_sorted (VideoCapture video_path) None 0 [])
      as (new & -> & Hs & _).
    exact Hs.
  - vm_compute. reflexivity.
Qed.

End SceneChangeFacts.

(* ================================================================== *)
(** * The video lookup                                                  *)
(* ================================================================== *)

Lemma startswith_iff (s p : string) :
  startswith s p = true <-> exists r, s = (p ++ r)%string.
Proof.
  revert s. induction p as [|a p IH]; intros s.
  - split; [intros _; now exists s | intros _; destruct s; reflexivity].
  - destruct s as [|b s]; simpl.
    + split; [discriminate | intros [r H]; discriminate H].
    + rewrite andb_true_iff, Ascii.eqb_eq, IH. split.
      * intros [-> [r ->]]. now exists r.
      * intros [r H]. injection H as -> ->. split; [reflexivity | now exists r].
Qed.

Lemma hd_split_cons (sep c : ascii) (s : string) :
  hd EmptyString (split sep (String c s))
  = if Ascii.eqb c sep then EmptyString
    else String c (hd EmptyString (split sep s)).
Proof.
  simpl. destruct (Ascii.eqb c sep); [reflexivity|].
  destruct (split sep s); reflexivity.
Qed.

Lemma hd_split_spec (sep : ascii) (s : string) :
  ~ In sep (chars (hd EmptyString (split sep s)))
  /\ (s = hd EmptyString (split sep s)
      \/ exists r, s = (hd EmptyString (split sep s) ++ String sep r)%string).
Proof.
  induction s as [|c s [IHn IHs]].
  - simpl. split; [tauto | now left].
  - rewrite hd_split_cons. destruct (Ascii.eqb c sep) eqn:E.
    + apply Ascii.eqb_eq in E. subst c. split; [simpl; tauto|].
      right. now exists s.
    + apply Ascii.eqb_neq in E. split.
      * simpl. intros [H|H]; [now apply E | now apply IHn].
      * destruct IHs as [IHs|[r IHs]].
        -- left. now rewrite <- IHs.
        -- right. exists r. simpl. now rewrite <- IHs.
Qed.

Lemma hd_split_app (sep : ascii) (a b : string) :
  hd EmptyString (split sep (a ++ String sep b))
  = hd EmptyString (split sep a).
Proof.
  induction a as [|c a IH].
  - simpl. now rewrite Ascii.eqb_refl.
  - change ((String c a ++ String sep b)%string)
      with (String c (a ++ String sep b)).
    rewrite !hd_split_cons, IH. reflexivity.
Qed.

Lemma hd_split_no_sep (sep : ascii) (a : string) :
  ~ In sep (chars a) -> hd EmptyString (split sep a) = a.
Proof.
  induction a as [|c a IH]; intros H; [reflexivity|].
  rewrite hd_split_cons. simpl in H.
  destruct (Ascii.eqb c sep) eqn:E.
  - apply Ascii.eqb_eq in E. tauto.
  - rewrite IH; tauto.
Qed.

Lemma filter_first {A : Type} (p : A -> bool) (l : list A) (x : A)
    (rest : list A) :
  filter p l = x :: rest ->
  exists before after,
    l = before ++ x :: after
    /\ Forall (fun y => p y = false) before /\ p x = true.
Proof.
  induction l as [|a l IH]; simpl; [discriminate|].
  destruct (p a) eqn:E.
  - intros H. injection H as -> _. exists [], l. auto.
  - intros H. destruct (IH H) as (before & after & -> & Hb & Hx).
    exists (a :: before), after. auto.
Qed.

Lemma filter_nil_iff {A : Type} (p : A -> bool) (l : list A) :
  filter p l = [] <-> existsb p l = false.
Proof.
  induction l as [|a l IH]; simpl; [tauto|].
  destruct (p a); simpl; [split; discriminate | exact IH].
Qed.

Lemma locate_video_named {frame : Type} (env : environment frame)
    (md : metadata) (video_name : string) (files : list string) :
  name md = Some (VStr video_name) ->
  video_name <> EmptyString ->
  raw_videos env = Some files ->
  locate_video env md
  = match filter (is_video_of (base_name_of video_name)) files with
    | [] => Raise ValueError
    | first :: _ =>
        Ok (path_join raw_videos_dir first, sanitize (base_name_of video_name))
    end.
Proof.
  intros Hn Hne Hr. unfold locate_video, get. rewrite Hn.
  cbn [truthy_value].
  destruct (String.eqb video_name "") eqn:Ee.
  - apply String.eqb_eq in Ee. contradiction.
  - cbn [negb]. rewrite Hr. reflexivity.
Qed.

(** X1: when the lookup succeeds, the document is named by a non-empty
    string, and the file returned is the first entry of the directory
    listing that starts with the part of the name before its first
    underscore and ends with .mp4, .mov, .avi or .mkv; entries before it do
    not qualify. *)
Theorem locate_video_first_match {frame : Type} (env : environment frame)
    (md : metadata) (video_path sanitized_name : string) :
  locate_video env md = Ok (video_path, sanitized_name) ->
  exists video_name files before f after,
    name md = Some (VStr video_name)
    /\ video_name <> EmptyString
    /\ raw_videos env = Some files
    /\ files = before ++ f :: after
    /\ Forall (fun g => is_video_of (base_name_of video_name) g = false) before
    /\ is_video_of (base_name_of video_name) f = true
    /\ video_path = path_join raw_videos_dir f
    /\ sanitized_name = sanitize (base_name_of video_name).
Proof.
  unfold locate_video, get. intros H.
  destruct (name md) as [[| n | x |video_name]|] eqn:En; simpl in H;
    try discriminate H;
    try (destruct (negb _); discriminate H).
  destruct (String.eqb video_name "") eqn:Ee; simpl in H; [discriminate H|].
  destruct (raw_videos env) as [files|]; [|discriminate H].
  destruct (filter _ files) as [|f rest] eqn:Ef; [discriminate H|].
  injection H as <- <-.
  apply filter_first in Ef. destruct Ef as (before & after & -> & Hb & Hf).
  exists video_name, (before ++ f :: after), before, f, after.
  repeat split; try assumption; try reflexivity.
  intros ->. discriminate Ee.
Qed.

Lemma locate_video_first_match_witness :
  locate_video (Examples.studio Examples.damaged)
               (Examples.document Examples.two_shots)
  = Ok ("data/raw_videos/clip.mp4", "clip")%string
  /\ exists video_name files before f after,
       name (Examples.document Examples.two_shots) = Some (VStr video_name)
       /\ video_name <> EmptyString
       /\ raw_videos (Examples.studio Examples.damaged) = Some files
       /\ files = before ++ f :: after
       /\ Forall (fun g => is_video_of (base_name_of video_name) g = false)
                 before
       /\ is_video_of (base_name_of video_name) f = true
       /\ "data/raw_videos/clip.mp4"%string = path_join raw_videos_dir f
       /\ "clip"%string = sanitize (base_name_of video_name).
Proof.
  assert (HL : locate_video (Examples.studio Examples.damaged)
                            (Examples.document Examples.two_shots)
               = Ok ("data/raw_videos/clip.mp4", "clip")%string)
    by (vm_compute; reflexivity).
  split; [exact HL|].
  exact (locate_video_first_match _ _ _ _ HL).
Defined.

(** X2: the lookup succeeds exactly when the document is named by a
    non-empty string, the directory of raw videos is listed and one of its
    entries qualifies.  It raises ValueError when the name is missing, when
    it is None, zero or the empty string, when the directory is absent, and
    when no entry of the listing qualifies; it raises AttributeError when
    the name is a number that is not zero. *)
Theorem locate_video_succeeds_iff {frame : Type} (env : environment frame)
    (md : metadata) :
  ((exists located, locate_video env md = Ok located) <->
   exists video_name files,
     name md = Some (VStr video_name)
     /\ video_name <> EmptyString
     /\ raw_videos env = Some files
     /\ existsb (is_video_of (base_name_of video_name)) files = true)
  /\ (truthy_value (get (name md)) = false ->
      locate_video env md = Raise ValueError)
  /\ (forall n, name md = Some (VInt n) -> n <> 0 ->
        locate_video env md = Raise AttributeError)
  /\ (forall x, name md = Some (VFloat x) -> truthy x = true ->
        locate_video env md = Raise AttributeError)
  /\ (forall video_name,
        name md = Some (VStr video_name) -> video_name <> EmptyString ->
        (raw_videos env = None -> locate_video env md = Raise ValueError)
        /\ (forall files,
              raw_videos env = Some files ->
              existsb (is_video_of (base_name_of video_name)) files = false ->
              locate_video env md = Raise ValueError)).
Proof.
  split; [split|].
  - intros [[video_path sanitized_name] H].
    apply locate_video_first_match in H.
    destruct H as (video_name & files & before & f & after
                   & Hn & Hne & Hr & -> & _ & Hf & _).
    exists video_name, (before ++ f :: after). repeat split; try assumption.
    apply existsb_exists. exists f. split; [|exact Hf].
    apply in_or_app. right. now left.
  - intros (video_name & files & Hn & Hne & Hr & Hex).
    rewrite (locate_video_named env md video_name files Hn Hne Hr).
    destruct (filter (is_video_of (base_name_of video_name)) files)
      as [|f rest] eqn:Ef.
    + apply filter_nil_iff in Ef. congruence.
    + eauto.
  - split; [|split; [|split]].
    + intros Hn. unfold locate_video. now rewrite Hn.
    + intros n Hn Hne. unfold locate_video, get. rewrite Hn.
      cbn [truthy_value]. apply Z.eqb_neq in Hne. now rewrite Hne.
    + intros x Hn Hx. unfold locate_video, get. rewrite Hn.
      cbn [truthy_value]. now rewrite Hx.
    + intros video_name Hn Hne. split.
      * intros Hr. unfold locate_video, get. rewrite Hn.
        cbn [truthy_value].
        destruct (String.eqb_spec video_name EmptyString) as [E|_];
          [contradiction|].
        cbn [negb]. now rewrite Hr.
      * intros files Hr Hex.
        rewrite (locate_video_named env md video_name files Hn Hne Hr).
        destruct (filter (is_video_of (base_name_of video_name)) files)
          as [|f rest] eqn:Ef; [reflexivity|].
        assert (Hin : In f (filter (is_video_of (base_name_of video_name))
                              files)) by (rewrite Ef; now left).
        apply filter_In in Hin. destruct Hin as [Hin Hq].
        assert (Ht : existsb (is_video_of (base_name_of video_name)) files
                     = true) by (apply existsb_exists; eauto).
        congruence.
Qed.

Lemma locate_video_succeeds_iff_witness :
  name (Examples.document Examples.two_shots) = Some (VStr "clip_20240101")
  /\ raw_videos (Examples.studio Examples.damaged)
     = Some ["notes.txt"; "clip.mp4"]%string
  /\ (exists located,
        locate_video (Examples.studio Examples.damaged)
                     (Examples.document Examples.two_shots) = Ok located)
  /\ locate_video (Examples.studio Examples.damaged)
       {| name := Some (VInt 7); videos := None |} = Raise AttributeError
  /\ locate_video (Examples.studio Examples.damaged)
       {| name := Some (VStr "talk_1"); videos := None |} = Raise ValueError.
Proof.
  split; [reflexivity|]. split; [reflexivity|]. split; [|split].
  - apply (proj2 (proj1 (locate_video_succeeds_iff
                           (Examples.studio Examples.damaged)
                           (Examples.document Examples.two_shots)))).
    exists "clip_20240101"%string, ["notes.txt"; "clip.mp4"]%string.
    split; [reflexivity|]. split; [discriminate|].
    split; [reflexivity | vm_compute; reflexivity].
  - apply (proj1 (proj2 (proj2 (locate_video_succeeds_iff
                                  (Examples.studio Examples.damaged)
                                  {| name := Some (VInt 7);
                                     videos := None |}))) 7);
      [reflexivity | discriminate].
  - apply (proj2 (proj2 (proj2 (proj2 (proj2 (locate_video_succeeds_iff
             (Examples.studio Examples.damaged)
             {| name := Some (VStr "talk_1"); videos := None |}))))
             "talk_1"%string eq_refl ltac:(discriminate))
             ["notes.txt"; "clip.mp4"]%string eq_refl).
    vm_compute. reflexivity.
Defined.

Lemma string_app_nil_r (s : string) : (s ++ "")%string = s.
Proof. induction s as [|c s IH]; simpl; [reflexivity | now rewrite IH]. Qed.

Lemma string_app_assoc (a b c : string) :
  (a ++ (b ++ c))%string = ((a ++ b) ++ c)%string.
Proof. induction a as [|x a IH]; simpl; [reflexivity | now rewrite IH]. Qed.

Lemma string_map_length (f : ascii -> ascii) (s : string) :
  String.length (string_map f s) = String.length s.
Proof. induction s as [|c s IH]; simpl; [reflexivity | now rewrite IH]. Qed.

(** X3: the sanitized name has the length of the base name and consists of
    alphanumeric characters and underscores only; alphanumeric characters
    are kept, so a name that is alphanumeric throughout is unchanged, and
    sanitizing twice changes nothing more. *)
Theorem sanitize_spec (base_name : string) :
  String.length (sanitize base_name) = String.length base_name
  /\ Forall (fun c => isalnum c = true \/ c = "_"%char)
            (chars (sanitize base_name))
  /\ sanitize (sanitize base_name) = sanitize base_name
  /\ (Forall (fun c => isalnum c = true) (chars base_name) ->
      sanitize base_name = base_name).
Proof.
  split; [apply string_map_length|]. unfold sanitize. split; [|split].
  - induction base_name as [|c s IH]; simpl; constructor; [|exact IH].
    destruct (isalnum c) eqn:E; [now left | now right].
  - induction base_name as [|c s IH]; [reflexivity|].
    cbn [string_map]. rewrite IH. f_equal.
    destruct (isalnum c) eqn:E; [now rewrite E | reflexivity].
  - induction base_name as [|c s IH]; intros H; [reflexivity|].
    cbn [string_map]. simpl in H.
    inversion H as [|? ? Hc Hs]; subst. rewrite Hc. f_equal. now apply IH.
Qed.

(** X4: the base name is the part of the video name before its first
    underscore: it holds no underscore, and the video name is the base name
    itself or the base name followed by an underscore and more.  The name
    under which app.py indexes an upload, [base_stamp], has the base name
    of the uploaded file's own name: the whole of it when it has no
    underscore, only its part before the first underscore otherwise. *)
Theorem base_name_before_first_underscore (video_name : string) :
  ~ In "_"%char (chars (base_name_of video_name))
  /\ (video_name = base_name_of video_name
      \/ exists rest,
           video_name = (base_name_of video_name ++ "_" ++ rest)%string)
  /\ startswith video_name (base_name_of video_name) = true
  /\ (forall stamp,
        base_name_of (app.unique_video_name video_name stamp)
        = base_name_of video_name)
  /\ (~ In "_"%char (chars video_name) ->
      forall stamp,
        base_name_of (app.unique_video_name video_name stamp) = video_name).
Proof.
  destruct (hd_split_spec "_"%char video_name) as [Hn Hs].
  split; [exact Hn|]. split; [exact Hs|]. split; [|split].
  - apply startswith_iff. destruct Hs as [Hs|[r Hs]].
    + exists EmptyString. now rewrite string_app_nil_r.
    + exists (String "_" r). exact Hs.
  - intros stamp. unfold base_name_of, app.unique_video_name.
    apply (hd_split_app "_"%char video_name stamp).
  - intros H stamp. unfold base_name_of, app.unique_video_name.
    transitivity (hd EmptyString (split "_" video_name));
      [apply (hd_split_app "_"%char video_name stamp)
      | now apply hd_split_no_sep].
Qed.

Lemma rev_string_acc (s acc : string) :
  rev_string s acc = (rev_string s EmptyString ++ acc)%string.
Proof.
  revert acc. induction s as [|c s IH]; intros acc; simpl; [reflexivity|].
  rewrite IH, (IH (String c EmptyString)).
  clear. induction (rev_string s "") as [|a r IHr]; simpl;
    [reflexivity | now rewrite IHr].
Qed.

Lemma rev_string_app (a b acc : string) :
  rev_string (a ++ b) acc = rev_string b (rev_string a acc).
Proof.
  revert acc. induction a as [|c a IH]; intros acc; simpl; [reflexivity|].
  apply IH.
Qed.

Lemma endswith_app (a p : string) : endswith (a ++ p) p = true.
Proof.
  unfold endswith. rewrite rev_string_app, rev_string_acc.
  apply startswith_iff. eauto.
Qed.

Lemma endswith_iff (s p : string) :
  endswith s p = true <-> exists a, s = (a ++ p)%string.
Proof.
  split; [|intros [a ->]; apply endswith_app].
  assert (Hinv : forall x, rev_string (rev_string x "") "" = x).
  { intros x. induction x as [|c x IH]; [reflexivity|].
    simpl. rewrite (rev_string_acc x (String c EmptyString)), rev_string_app.
    simpl. now rewrite IH. }
  unfold endswith. intros H. apply startswith_iff in H. destruct H as [r H].
  exists (rev_string r ""). rewrite <- (Hinv s), H, rev_string_app, Hinv.
  apply rev_string_acc.
Qed.

Lemma base_name_before_first_underscore_aux (base stamp : string) :
  base_name_of (app.unique_video_name base stamp) = base_name_of base
  /\ startswith base (base_name_of base) = true.
Proof.
  split.
  - unfold base_name_of, app.unique_video_name.
    apply (hd_split_app "_"%char base stamp).
  - destruct (hd_split_spec "_"%char base) as [_ Hs].
    apply startswith_iff. destruct Hs as [Hs|[r Hs]].
    + exists EmptyString. now rewrite string_app_nil_r.
    + exists (String "_" r). exact Hs.
Qed.

(** X5: an uploaded file [base.ext] with one of the four extensions, indexed
    under the name app.py gives it, is always found again by the lookup of
    [extract_keyframes] as long as it is in the directory: the lookup does
    not fail, and the file it returns starts with the upload's base name
    (up to its first underscore) and has one of the four extensions. *)
Theorem uploaded_video_is_located {frame : Type} (env : environment frame)
    (md : metadata) (base stamp ext : string) (files : list string) :
  name md = Some (VStr (app.unique_video_name base stamp)) ->
  raw_videos env = Some files ->
  In ext video_extensions ->
  In (base ++ ext)%string files ->
  exists f,
    In f files
    /\ is_video_of (base_name_of base) f = true
    /\ locate_video env md
       = Ok (path_join raw_videos_dir f, sanitize (base_name_of base)).
Proof.
  intros Hn Hr He Hin.
  assert (Hne : app.unique_video_name base stamp <> EmptyString).
  { unfold app.unique_video_name. destruct base; discriminate. }
  rewrite (locate_video_named env md _ files Hn Hne Hr).
  destruct (base_name_before_first_underscore_aux base stamp) as [Hb Hp].
  rewrite Hb.
  assert (Hq : is_video_of (base_name_of base) (base ++ ext) = true).
  { unfold is_video_of. apply andb_true_iff. split.
    - apply startswith_iff. apply startswith_iff in Hp. destruct Hp as [r Hp].
      exists (r ++ ext)%string. rewrite string_app_assoc, <- Hp. reflexivity.
    - apply existsb_exists. exists ext. split; [exact He|].
      apply endswith_app. }
  destruct (filter (is_video_of (base_name_of base)) files) as [|f rest] eqn:Ef.
  - apply filter_nil_iff in Ef.
    assert (existsb (is_video_of (base_name_of base)) files = true)
      by (apply existsb_exists; eauto).
    congruence.
  - exists f.
    assert (Hf : In f (filter (is_video_of (base_name_of base)) files))
      by (rewrite Ef; now left).
    apply filter_In in Hf. destruct Hf as [Hf1 Hf2]. auto.
Qed.

Lemma uploaded_video_is_located_witness :
  name (Examples.document Examples.two_shots)
  = Some (VStr (app.unique_video_name "clip" "20240101"))
  /\ raw_videos (Examples.studio Examples.damaged)
     = Some ["notes.txt"; "clip.mp4"]%string
  /\ In ".mp4"%string video_extensions
  /\ In ("clip" ++ ".mp4")%string ["notes.txt"; "clip.mp4"]%string
  /\ exists f,
       In f ["notes.txt"; "clip.mp4"]%string
       /\ is_video_of (base_name_of "clip") f = true
       /\ locate_video (Examples.studio Examples.damaged)
                       (Examples.document Examples.two_shots)
          = Ok (path_join raw_videos_dir f, sanitize (base_name_of "clip")).
Proof.
  assert (H1 : name (Examples.document Examples.two_shots)
               = Some (VStr (app.unique_video_name "clip" "20240101")))
    by reflexivity.
  assert (H2 : raw_videos (Examples.studio Examples.damaged)
               = Some ["notes.txt"; "clip.mp4"]%string) by reflexivity.
  assert (H3 : In ".mp4"%string video_extensions) by (simpl; auto).
  assert (H4 : In ("clip" ++ ".mp4")%string ["notes.txt"; "clip.mp4"]%string)
    by (simpl; auto).
  split; [exact H1|]. split; [exact H2|]. split; [exact H3|].
  split; [exact H4|].
  exact (uploaded_video_is_located _ _ _ _ _ _ H1 H2 H3 H4).
Defined.

(* ================================================================== *)
(** * The builder at its edges                                          *)
(* ================================================================== *)

Lemma extract_keyframes_located {frame : Type} (env : environment frame)
    (md : metadata) (video_path sanitized_name : string) (vi : insights) :
  locate_video env md = Ok (video_path, sanitized_name) ->
  insights_of md = Ok vi ->
  extract_keyframes env md
  = sample_keyframes env video_path (path_join "thumbnails" sanitized_name) vi
      (collect_timestamps vi).
Proof.
  intros HL HI. unfold extract_keyframes. rewrite HL. cbn [bind].
  rewrite HI. reflexivity.
Qed.

Lemma add_all_length (l s : list float) :
  (List.length (fold_left set_add l s) <= List.length s + List.length l)%nat.
Proof.
  revert s. induction l as [|x l IH]; intros s; simpl; [lia|].
  specialize (IH (set_add s x)).
  assert (List.length (set_add s x) <= S (List.length s))%nat.
  { unfold set_add. destruct (existsb (feq x) s); [lia|].
    rewrite length_app. simpl. lia. }
  lia.
Qed.

Lemma Forall2_length_eq {A B : Type} (R : A -> B -> Prop) (l : list A)
    (l' : list B) :
  Forall2 R l l' -> List.length l = List.length l'.
Proof. induction 1; simpl; [reflexivity | now f_equal]. Qed.



(** X7: a document whose ["videos"] list is empty makes the build fail with
    IndexError as soon as its video file is found, whether or not the video
    can be opened. *)
Theorem empty_videos_list_raises {frame : Type} (env : environment frame)
    (md : metadata) (located : string * string) :
  locate_video env md = Ok located ->
  videos md = Some [] ->
  extract_keyframes env md = Raise IndexError.
Proof.
  intros HL Hv. unfold extract_keyframes. rewrite HL. cbn [bind].
  destruct located as [video_path sanitized_name].
  unfold insights_of. rewrite Hv. reflexivity.
Qed.

Lemma empty_videos_list_raises_witness :
  locate_video (Examples.studio Examples.unopened)
               {| name := Some (VStr "clip_1"); videos := Some [] |}
  = Ok ("data/raw_videos/clip.mp4", "clip")%string
  /\ extract_keyframes (Examples.studio Examples.unopened)
                       {| name := Some (VStr "clip_1"); videos := Some [] |}
     = Raise IndexError.
Proof.
  assert (HL : locate_video (Examples.studio Examples.unopened)
                 {| name := Some (VStr "clip_1"); videos := Some [] |}
               = Ok ("data/raw_videos/clip.mp4", "clip")%string)
    by (vm_compute; reflexivity).
  split; [exact HL|].
  exact (empty_videos_list_raises _ _ _ HL eq_refl).
Defined.

(** X8: every keyframe returned is built from one collected timestamp, the
    one at position [frame_index]: its start and end time are both the
    text of that timestamp, its labels, faces, OCR text and shot tags are
    those active at that timestamp, and its image path is
    thumbnails/<sanitized name>/frame_<frame_index>.jpg made absolute. *)
Theorem keyframe_content {frame : Type} (env : environment frame)
    (md : metadata) (video_path sanitized_name : string) (vi : insights)
    (kfs : list keyframe_data) :
  locate_video env md = Ok (video_path, sanitized_name) ->
  insights_of md = Ok vi ->
  extract_keyframes env md = Ok kfs ->
  forall kf, In kf kfs ->
    exists t,
      nth_error (collect_timestamps vi) (frame_index kf) = Some t
      /\ time_str t = Ok (start_time kf)
      /\ end_time kf = start_time kf
      /\ kf_labels kf = active_labels vi t
      /\ kf_faces kf = active_faces vi t
      /\ ocr_text kf = active_ocr vi t
      /\ shot_tags kf = active_shot_tags vi t
      /\ keyframe_path kf
         = abspath env
             (path_join (path_join "thumbnails" sanitized_name)
                ("frame_" ++ str_of_int (Z.of_nat (frame_index kf)) ++ ".jpg")).
Proof.
  intros HL HI H kf Hkf.
  rewrite (extract_keyframes_located env md _ _ _ HL HI) in H.
  unfold sample_keyframes in H.
  destruct (isOpened (open_video env video_path)); [|discriminate H].
  cbn [negb] in H. apply loop_Ok in H. destruct H as [new [-> HF]].
  simpl in Hkf.
  destruct (Forall2_In_l _ _ _ _ HF Hkf) as [[j t] [Hj Hmk]].
  apply filter_In in Hj. destruct Hj as [Hj _].
  apply combine_seq_In in Hj. destruct Hj as [_ Hj].
  rewrite Nat.sub_0_r in Hj. simpl in Hmk.
  assert (Hp : keyframe_path kf
               = abspath env
                   (path_join (path_join "thumbnails" sanitized_name)
                      ("frame_" ++ str_of_int (Z.of_nat j) ++ ".jpg"))).
  { unfold make_keyframe in Hmk.
    destruct (time_str t); [|discriminate Hmk].
    cbn [bind] in Hmk. injection Hmk as <-. reflexivity. }
  apply make_keyframe_Ok in Hmk.
  destruct Hmk as (Hi & Ht & He & Hl & Hf & Ho & Hs).
  exists t. rewrite Hi. repeat split; assumption.
Qed.

Lemma keyframe_content_witness :
  locate_video (Examples.studio Examples.damaged)
               (Examples.document Examples.two_shots)
  = Ok ("data/raw_videos/clip.mp4", "clip")%string
  /\ insights_of (Examples.document Examples.two_shots) = Ok Examples.two_shots
  /\ extract_keyframes (Examples.studio Examples.damaged)
                       (Examples.document Examples.two_shots)
     = Ok Examples.damaged_keyframes
  /\ forall kf, In kf Examples.damaged_keyframes ->
       exists t,
         nth_error (collect_timestamps Examples.two_shots) (frame_index kf)
         = Some t
         /\ time_str t = Ok (start_time kf)
         /\ end_time kf = start_time kf
         /\ kf_labels kf = active_labels Examples.two_shots t
         /\ kf_faces kf = active_faces Examples.two_shots t
         /\ ocr_text kf = active_ocr Examples.two_shots t
         /\ shot_tags kf = active_shot_tags Examples.two_shots t
         /\ keyframe_path kf
            = abspath (Examples.studio Examples.damaged)
                (path_join (path_join "thumbnails" "clip")
                   ("frame_" ++ str_of_int (Z.of_nat (frame_index kf))
                    ++ ".jpg")).
Proof.
  assert (HL : locate_video (Examples.studio Examples.damaged)
                            (Examples.document Examples.two_shots)
               = Ok ("data/raw_videos/clip.mp4", "clip")%string)
    by (vm_compute; reflexivity).
  assert (HI : insights_of (Examples.document Examples.two_shots)
               = Ok Examples.two_shots) by reflexivity.
  assert (HE : extract_keyframes (Examples.studio Examples.damaged)
                                 (Examples.document Examples.two_shots)
               = Ok Examples.damaged_keyframes) by (vm_compute; reflexivity).
  split; [exact HL|]. split; [exact HI|]. split; [exact HE|].
  exact (keyframe_content _ _ _ _ _ _ HL HI HE).
Defined.

(** X9: there are at most as many keyframes as collected timestamps, and at
    most as many timestamps as interval boundaries, two for each label
    appearance, transcript instance and shot. *)
Theorem keyframe_count_bound {frame : Type} (env : environment frame)
    (md : metadata) (vi : insights) (kfs : list keyframe_data) :
  insights_of md = Ok vi ->
  extract_keyframes env md = Ok kfs ->
  (List.length kfs <= List.length (collect_timestamps vi))%nat
  /\ (List.length (collect_timestamps vi) <= List.length (boundaries vi))%nat.
Proof.
  intros HI H. split.
  - apply extract_keyframes_Ok in H.
    destruct H as (vp & sn & vi' & _ & HI' & _ & H).
    rewrite HI in HI'. injection HI' as <-.
    apply loop_Ok in H. destruct H as [new [-> HF]]. simpl.
    rewrite (Forall2_length_eq _ _ _ HF).
    etransitivity; [apply filter_length_le|].
    unfold enumerate. rewrite length_combine, length_seq. lia.
  - rewrite collect_timestamps_eq, sorted_length.
    apply (add_all_length (boundaries vi) []).
Qed.

Lemma keyframe_count_bound_witness :
  insights_of (Examples.document Examples.two_shots) = Ok Examples.two_shots
  /\ extract_keyframes (Examples.studio Examples.damaged)
                       (Examples.document Examples.two_shots)
     = Ok Examples.damaged_keyframes
  /\ (List.length Examples.damaged_keyframes
      <= List.length (collect_timestamps Examples.two_shots))%nat
  /\ (List.length (collect_timestamps Examples.two_shots)
      <= List.length (boundaries Examples.two_shots))%nat.
Proof.
  assert (HI : insights_of (Examples.document Examples.two_shots)
               = Ok Examples.two_shots) by reflexivity.
  assert (HE : extract_keyframes (Examples.studio Examples.damaged)
                                 (Examples.document Examples.two_shots)
               = Ok Examples.damaged_keyframes) by (vm_compute; reflexivity).
  split; [exact HI|]. split; [exact HE|].
  exact (keyframe_count_bound _ _ _ _ HI HE).
Defined.

(* ================================================================== *)
(** * More on the scene-change detector                                 *)
(* ================================================================== *)

Lemma fle_flt_trans (a b c : float) :
  fle a b = true -> flt b c = true -> flt a c = true.
Proof. intros H1 H2. float_cases. Qed.

Section SceneChangeMore.

Import metadata_extraction.

Context {frame gray : Type}.
Variable VideoCapture : string -> list frame.
Variable cvtColor : frame -> gray.
Variable absdiff : gray -> gray -> gray.
Variable mean : gray -> float.

Lemma scan_length (threshold : float) (stream : list frame) :
  forall (prev : option gray) (idx : Z) (acc : list keyframe),
    (List.length (scan cvtColor absdiff mean threshold stream prev idx acc)
     <= List.length acc
        + match prev with
          | Some _ => List.length stream
          | None => pred (List.length stream)
          end)%nat.
Proof.
  induction stream as [|f stream IH]; intros prev idx acc.
  - simpl. destruct prev; lia.
  - cbn [scan].
    set (acc' := match prev with Some p => _ | None => acc end).
    specialize (IH (Some (cvtColor f)) (idx + 1) acc').
    assert (Hacc : (List.length acc'
                    <= List.length acc
                       + match prev with Some _ => 1 | None => 0 end)%nat).
    { unfold acc'. destruct prev as [p|]; [|lia].
      destruct (fgt _ threshold); [|lia].
      rewrite length_app. simpl. lia. }
    simpl. destruct prev; lia.
Qed.

(** X10: raising the threshold never adds a keyframe: every keyframe
    emitted with a threshold is also emitted, with the same index, path and
    score, with any lower threshold. *)
Theorem higher_threshold_fewer_keyframes (video_path : string)
    (low high : float) :
  fle low high = true ->
  incl (extract_keyframes VideoCapture cvtColor absdiff mean video_path high)
       (extract_keyframes VideoCapture cvtColor absdiff mean video_path low).
Proof.
  intros Hle kf Hkf. unfold extract_keyframes in *.
  apply scan_In in Hkf. apply scan_In.
  destruct Hkf as [[]|(j & cur & pv & Hj & Hp & Hgt & ->)].
  right. exists j, cur, pv. repeat split; try assumption.
  unfold fgt in *. eapply fle_flt_trans; eassumption.
Qed.

(** X11: a video of [n] frames gives at most [n - 1] keyframes; a video
    with a single frame, or one that delivers no frame at all (a file that
    cannot be opened), gives none. *)
Theorem scene_change_count (video_path : string) (threshold : float) :
  (List.length
     (extract_keyframes VideoCapture cvtColor absdiff mean video_path threshold)
   <= pred (List.length (VideoCapture video_path)))%nat
  /\ ((List.length (VideoCapture video_path) <= 1)%nat ->
      extract_keyframes VideoCapture cvtColor absdiff mean video_path threshold
      = []).
Proof.
  assert (H : (List.length
                 (extract_keyframes VideoCapture cvtColor absdiff mean
                    video_path threshold)
               <= pred (List.length (VideoCapture video_path)))%nat).
  { unfold extract_keyframes.
    apply (scan_length threshold (VideoCapture video_path) None 0 []). }
  split; [exact H|].
  intros Hn.
  destruct (extract_keyframes VideoCapture cvtColor absdiff mean video_path
              threshold); [reflexivity|].
  simpl in H. lia.
Qed.

End SceneChangeMore.

Lemma higher_threshold_fewer_keyframes_witness :
  fle metadata_extraction.default_threshold (float_lit 200) = true
  /\ incl (metadata_extraction.extract_keyframes Examples.flash
             (fun img => img) Examples.absdiff_pixels Examples.mean_pixels
             "flash.mp4" (float_lit 200))
          (metadata_extraction.extract_keyframes Examples.flash
             (fun img => img) Examples.absdiff_pixels Examples.mean_pixels
             "flash.mp4" metadata_extraction.default_threshold).
Proof.
  assert (H : fle metadata_extraction.default_threshold (float_lit 200) = true)
    by (vm_compute; reflexivity).
  split; [exact H|].
  exact (higher_threshold_fewer_keyframes Examples.flash (fun img => img)
           Examples.absdiff_pixels Examples.mean_pixels "flash.mp4"
           metadata_extraction.default_threshold (float_lit 200) H).
Defined.

(* ================================================================== *)
(** * The timing text of a keyframe                                     *)
(* ================================================================== *)

Import annotation_ui.

Lemma fsub_diag (x : float) : is_finite x = true -> fsub x x = fzero.
Proof.
  destruct x as [s|s| |s m e]; try discriminate; intros _.
  - destruct s; reflexivity.
  - unfold fsub, SFsub. rewrite Z.sub_diag. reflexivity.
Qed.

Lemma string_app_cons_nonempty (a b : string) (c : ascii) :
  (a ++ String c b)%string <> EmptyString.
Proof. destruct a; discriminate. Qed.

Lemma time_str_nonempty (t : float) (text : string) :
  time_str t = Ok text -> text <> EmptyString.
Proof.
  unfold time_str. intros H.
  repeat (apply bind_Ok in H; destruct H as [? [_ H]]).
  injection H as <-. apply string_app_cons_nonempty.
Qed.

(** X12: the caption of a keyframe returned by [extract_keyframes] reads
    <time> - <time> (0.0s): start and end are the same text, so the
    duration shown is zero, whenever that text parses to a finite number.
    The caption is "Timing not available" when a time is missing or
    empty. *)
Theorem keyframe_caption {frame : Type} (env : environment frame)
    (md : metadata) (kfs : list keyframe_data) (kf : keyframe_data) :
  extract_keyframes env md = Ok kfs ->
  In kf kfs ->
  is_finite (parse_time (VStr (start_time kf))) = true ->
  format_timing (Some (start_time kf)) (Some (end_time kf))
  = (start_time kf ++ " - " ++ start_time kf ++ " (0.0s)")%string
  /\ (forall text, format_timing None text = "Timing not available"%string
                   /\ format_timing text None = "Timing not available"%string
                   /\ format_timing (Some EmptyString) text
                      = "Timing not available"%string
                   /\ format_timing text (Some EmptyString)
                      = "Timing not available"%string).
Proof.
  intros H Hkf Hfin. split.
  - apply extract_keyframes_Ok in H.
    destruct H as (vp & sn & vi & _ & _ & _ & H).
    apply loop_Ok in H. destruct H as [new [-> HF]]. simpl in Hkf.
    destruct (Forall2_In_l _ _ _ _ HF Hkf) as [[j t] [_ Hmk]].
    apply make_keyframe_Ok in Hmk. destruct Hmk as (_ & Ht & He & _).
    apply time_str_nonempty in Ht.
    rewrite He. unfold format_timing, blank.
    destruct (String.eqb (start_time kf) "") eqn:E.
    + apply String.eqb_eq in E. contradiction.
    + cbn [orb]. now rewrite fsub_diag.
  - intros text. repeat split.
    + destruct text; reflexivity.
    + destruct text as [[|c s]|]; reflexivity.
    + destruct text as [[|c s]|]; reflexivity.
Qed.

Lemma keyframe_caption_witness :
  extract_keyframes (Examples.studio Examples.damaged)
                    (Examples.document Examples.two_shots)
  = Ok Examples.damaged_keyframes
  /\ format_timing (Some "00:00:05.000"%string) (Some "00:00:05.000"%string)
     = "00:00:05.000 - 00:00:05.000 (0.0s)"%string.
Proof.
  assert (HE : extract_keyframes (Examples.studio Examples.damaged)
                                 (Examples.document Examples.two_shots)
               = Ok Examples.damaged_keyframes) by (vm_compute; reflexivity).
  split; [exact HE|].
  assert (Hin : In (nth 1 Examples.damaged_keyframes
                        (nth 0 Examples.damaged_keyframes
                             {| frame_index := 0; keyframe_path := "";
                                start_time := ""; end_time := "";
                                shot_tags := []; kf_labels := [];
                                kf_faces := []; ocr_text := [] |}))
                   Examples.damaged_keyframes)
    by (vm_compute; auto).
  exact (proj1 (keyframe_caption _ _ _ _ HE Hin eq_refl)).
Defined.

(* ================================================================== *)
(** * The most recent metadata file                                     *)
(* ================================================================== *)

Lemma fle_connex (a b : float) :
  ordered a -> ordered b -> flt a b = false -> fle b a = true.
Proof. intros Ha Hb H. float_cases. Qed.

Lemma fle_trans (a b c : float) :
  fle a b = true -> fle b c = true -> fle a c = true.
Proof. intros H1 H2. float_cases. Qed.

Lemma flt_fle (a b : float) : flt a b = true -> fle a b = true.
Proof. intros H. float_cases. Qed.

Lemma fle_refl (a : float) : ordered a -> fle a a = true.
Proof. intros H. float_cases. Qed.

Lemma insert_desc_In {A : Type} (key : A -> float) (x t : A) (l : list A) :
  In t (insert_desc key x l) <-> t = x \/ In t l.
Proof.
  induction l as [|y l IH]; simpl.
  - intuition.
  - destruct (flt (key x) (key y)); simpl; rewrite ?IH; intuition.
Qed.

Lemma sort_desc_In {A : Type} (key : A -> float) (t : A) (l : list A) :
  In t (sort_desc key l) <-> In t l.
Proof.
  induction l as [|x l IH]; simpl; [reflexivity|].
  change (sort_desc key (x :: l)) with (insert_desc key x (sort_desc key l)).
  rewrite insert_desc_In, IH. intuition.
Qed.

(** The head of the sorted list carries the largest key. *)
Lemma sort_desc_head {A : Type} (key : A -> float) (d : A) (l : list A) :
  (forall x, In x l -> ordered (key x)) ->
  forall y, In y l -> fle (key y) (key (hd d (sort_desc key l))) = true.
Proof.
  induction l as [|x l IH]; intros Ho y Hy; [contradiction|].
  change (sort_desc key (x :: l)) with (insert_desc key x (sort_desc key l)).
  assert (Ho' : forall z, In z l -> ordered (key z))
    by (intros z Hz; apply Ho; now right).
  specialize (IH Ho').
  destruct (sort_desc key l) as [|h rest] eqn:E.
  - assert (l = []).
    { destruct l as [|z l']; [reflexivity|].
      assert (In z (sort_desc key (z :: l'))) by (apply sort_desc_In; now left).
      rewrite E in H. contradiction. }
    subst l. simpl. destruct Hy as [<-|[]]. apply fle_refl, Ho. now left.
  - assert (Hh : In h l) by (apply (sort_desc_In key); rewrite E; now left).
    simpl in IH. simpl.
    destruct (flt (key x) (key h)) eqn:F; simpl.
    + destruct Hy as [<-|Hy]; [now apply flt_fle | now apply IH].
    + assert (Hhx : fle (key h) (key x) = true).
      { apply fle_connex; auto. apply Ho. now left. }
      destruct Hy as [<-|Hy]; [apply fle_refl, Ho; now left|].
      eapply fle_trans; [now apply IH | exact Hhx].
Qed.

(** X13: [get_latest_metadata_file] returns [None] exactly when no entry of
    the directory starts with the base name and ends with _cloud.json;
    otherwise it returns the path of such an entry whose creation time is
    the latest: no other candidate has a later one. *)
Theorem latest_metadata_file_is_newest (listing : list string)
    (getctime : string -> float) (base_name : string) :
  (forall f, ordered (getctime f)) ->
  let candidate f :=
    startswith f base_name && endswith f "_cloud.json" in
  (get_latest_metadata_file listing getctime base_name = None <->
   existsb candidate listing = false)
  /\ (forall p,
        get_latest_metadata_file listing getctime base_name = Some p ->
        exists f,
          p = path_join processed_dir f
          /\ In f listing /\ candidate f = true
          /\ forall g, In g listing -> candidate g = true ->
               fle (getctime (path_join processed_dir g))
                   (getctime (path_join processed_dir f)) = true).
Proof.
  intros Ho candidate. unfold get_latest_metadata_file.
  fold candidate.
  destruct (filter candidate listing) as [|c rest] eqn:E.
  - split.
    + split; [intros _; now apply filter_nil_iff | reflexivity].
    + discriminate.
  - split.
    + split; [discriminate|]. intros H. apply filter_nil_iff in H. congruence.
    + intros p H.
      set (key := fun x => getctime (path_join processed_dir x)).
      assert (Hp : p = path_join processed_dir
                         (hd EmptyString
                             (sort_desc key (filter candidate listing)))).
      { rewrite E. injection H as H. symmetry. exact H. }
      clear H. subst p.
      set (L := filter candidate listing) in *.
      exists (hd EmptyString (sort_desc key L)).
      assert (HinL : In (hd EmptyString (sort_desc key L)) L).
      { apply (sort_desc_In key).
        destruct (sort_desc key L) as [|h r] eqn:Es; [|now left].
        assert (In c (sort_desc key L))
          by (apply sort_desc_In; rewrite E; now left).
        rewrite Es in H. contradiction. }
      destruct (proj1 (filter_In candidate _ listing) HinL) as [Hin Hc].
      split; [reflexivity|]. split; [exact Hin|]. split; [exact Hc|].
      intros g Hg Hcg.
      apply (sort_desc_head key EmptyString L).
      * intros x _. apply Ho.
      * apply filter_In. now split.
Qed.

Lemma latest_metadata_file_is_newest_witness :
  (forall f, ordered ((fun f => float_lit (Z.of_nat (String.length f))) f))
  /\ get_latest_metadata_file
       ["clip_1_cloud.json"; "clip_22_cloud.json"; "clip.mp4"]%string
       (fun f => float_lit (Z.of_nat (String.length f))) "clip"
     = Some "data/processed/clip_22_cloud.json"%string
  /\ exists f,
       "data/processed/clip_22_cloud.json"%string = path_join processed_dir f
       /\ In f ["clip_1_cloud.json"; "clip_22_cloud.json"; "clip.mp4"]%string
       /\ startswith f "clip" && endswith f "_cloud.json" = true
       /\ forall g,
            In g ["clip_1_cloud.json"; "clip_22_cloud.json"; "clip.mp4"]%string ->
            startswith g "clip" && endswith g "_cloud.json" = true ->
            fle (float_lit (Z.of_nat (String.length (path_join processed_dir g))))
                (float_lit (Z.of_nat (String.length (path_join processed_dir f))))
            = true.
Proof.
  assert (Ho : forall f,
             ordered ((fun f => float_lit (Z.of_nat (String.length f))) f)).
  { intros f. eapply signed_ordered. apply binary_normalize_signed. }
  assert (HS : get_latest_metadata_file
                 ["clip_1_cloud.json"; "clip_22_cloud.json"; "clip.mp4"]%string
                 (fun f => float_lit (Z.of_nat (String.length f))) "clip"
               = Some "data/processed/clip_22_cloud.json"%string)
    by (vm_compute; reflexivity).
  split; [exact Ho|]. split; [exact HS|].
  exact (proj2 (latest_metadata_file_is_newest
                  ["clip_1_cloud.json"; "clip_22_cloud.json"; "clip.mp4"]%string
                  (fun f => float_lit (Z.of_nat (String.length f))) "clip" Ho)
               _ HS).
Defined.

(* ================================================================== *)
(** * Decimal digits                                                    *)
(* ================================================================== *)

Lemma to_uint_nonnil (n : N) : N.to_uint n <> Nil.
Proof.
  destruct n as [|p]; simpl; [discriminate|].
  apply DecimalPos.Unsigned.to_uint_nonnil.
Qed.

Lemma digits_of_eq (n : N) :
  digits_of n = NilEmpty.string_of_uint (N.to_uint n).
Proof.
  unfold digits_of, NilZero.string_of_uint.
  destruct (N.to_uint n) eqn:E; try reflexivity.
  now elim (to_uint_nonnil n).
Qed.

Lemma digits_of_inj (n n' : N) : digits_of n = digits_of n' -> n = n'.
Proof.
  unfold digits_of. intros H.
  apply DecimalN.Unsigned.to_uint_inj.
  apply (f_equal NilZero.uint_of_string) in H.
  rewrite !NilZero.usu in H by apply to_uint_nonnil.
  now injection H.
Qed.

Lemma str_of_int_nonneg (n : Z) :
  0 <= n -> str_of_int n = digits_of (Z.abs_N n).
Proof.
  intros H. unfold str_of_int, format_d. fold (digits_of (Z.abs_N n)).
  replace (n <? 0) with false by (symmetry; apply Z.ltb_ge; exact H).
  simpl. reflexivity.
Qed.

Lemma str_of_nat_inj (i j : nat) :
  str_of_int (Z.of_nat i) = str_of_int (Z.of_nat j) -> i = j.
Proof.
  rewrite !str_of_int_nonneg by lia. intros H.
  apply digits_of_inj in H. lia.
Qed.

Lemma uint_digits (d : Decimal.uint) :
  Forall (fun c => is_digit c = true) (chars (NilEmpty.string_of_uint d)).
Proof. induction d; simpl; constructor; try reflexivity; assumption. Qed.

Lemma digits_of_digits (n : N) :
  Forall (fun c => is_digit c = true) (chars (digits_of n)).
Proof. rewrite digits_of_eq. apply uint_digits. Qed.

Lemma digits_of_nonempty (n : N) : digits_of n <> EmptyString.
Proof.
  rewrite digits_of_eq. pose proof (to_uint_nonnil n) as H.
  destruct (N.to_uint n); try discriminate. now elim H.
Qed.

Lemma str_of_nat_no_char (i : nat) (c : ascii) :
  is_digit c = false -> ~ In c (chars (str_of_int (Z.of_nat i))).
Proof.
  intros Hc Hin. rewrite str_of_int_nonneg in Hin by lia.
  pose proof (digits_of_digits (Z.abs_N (Z.of_nat i))) as H.
  rewrite Forall_forall in H. specialize (H c Hin). congruence.
Qed.

(* ================================================================== *)
(** * Dictionaries                                                      *)
(* ================================================================== *)

Lemma dict_get_set {V : Type} (d : dict V) (k k' : string) (v : V) :
  dict_get (dict_set d k v) k'
  = if String.eqb k k' then Some v else dict_get d k'.
Proof.
  induction d as [|[k0 v0] d IH]; simpl.
  - reflexivity.
  - destruct (String.eqb k0 k) eqn:E; simpl.
    + apply String.eqb_eq in E. subst k0.
      destruct (String.eqb k k'); reflexivity.
    + rewrite IH. destruct (String.eqb k0 k') eqn:E'; [|reflexivity].
      apply String.eqb_eq in E'. subst k0. now rewrite String.eqb_sym, E.
Qed.

Lemma dict_set_keys {V : Type} (d : dict V) (k : string) (v : V) (x : string) :
  In x (map fst (dict_set d k v)) <-> x = k \/ In x (map fst d).
Proof.
  induction d as [|[k0 v0] d IH]; simpl.
  - intuition.
  - destruct (String.eqb k0 k) eqn:E; simpl.
    + apply String.eqb_eq in E. subst k0. intuition.
    + rewrite IH. intuition.
Qed.

Lemma dict_set_ok {V : Type} (d : dict V) (k : string) (v : V) :
  dict_ok d -> dict_ok (dict_set d k v).
Proof.
  unfold dict_ok. induction d as [|[k0 v0] d IH]; simpl; intros H.
  - constructor; [tauto | constructor].
  - inversion H as [|? ? Hn Hd]; subst.
    destruct (String.eqb k0 k) eqn:E; simpl.
    + constructor; assumption.
    + constructor; [|now apply IH].
      rewrite dict_set_keys. intros [->|Hin]; [|contradiction].
      now rewrite String.eqb_refl in E.
Qed.

Lemma dict_get_None {V : Type} (d : dict V) (k : string) :
  ~ In k (map fst d) -> dict_get d k = None.
Proof.
  induction d as [|[k0 v0] d IH]; simpl; intros H; [reflexivity|].
  destruct (String.eqb k0 k) eqn:E.
  - apply String.eqb_eq in E. tauto.
  - apply IH. tauto.
Qed.

Lemma dict_get_Some_In {V : Type} (d : dict V) (k : string) (v : V) :
  dict_get d k = Some v -> In k (map fst d).
Proof.
  induction d as [|[k0 v0] d IH]; simpl; [discriminate|].
  destruct (String.eqb k0 k) eqn:E.
  - apply String.eqb_eq in E. auto.
  - auto.
Qed.

(* ================================================================== *)
(** * Saving and loading annotations                                    *)
(* ================================================================== *)

Lemma split_no_sep (sep : ascii) (t : string) :
  ~ In sep (chars t) -> split sep t = [t].
Proof.
  induction t as [|c t IH]; simpl; intros H; [reflexivity|].
  destruct (Ascii.eqb c sep) eqn:E.
  - apply Ascii.eqb_eq in E. tauto.
  - rewrite IH by tauto. reflexivity.
Qed.

Lemma split_app_sep (sep : ascii) (a b : string) :
  ~ In sep (chars a) ->
  split sep (a ++ String sep b) = a :: split sep b.
Proof.
  induction a as [|c a IH]; simpl; intros H.
  - now rewrite Ascii.eqb_refl.
  - destruct (Ascii.eqb c sep) eqn:E.
    + apply Ascii.eqb_eq in E. tauto.
    + rewrite IH by tauto. reflexivity.
Qed.

(** The frame index read back from the key of a text area. *)
Lemma text_area_key_index (i : nat) :
  nth 1 (split "_" ("annot_" ++ str_of_int (Z.of_nat i))) EmptyString
  = str_of_int (Z.of_nat i).
Proof.
  change ("annot_" ++ str_of_int (Z.of_nat i))%string
    with ("annot" ++ String "_" (str_of_int (Z.of_nat i)))%string.
  rewrite split_app_sep.
  - rewrite split_no_sep; [reflexivity|].
    apply str_of_nat_no_char. reflexivity.
  - simpl. intros H.
    repeat (destruct H as [H|H]; [discriminate H|]). exact H.
Qed.

Section SaveLoop.

Variable session : dict value.

Let fidx (key : string) : string := nth 1 (split "_" key) EmptyString.

Let body (annotations : dict value) (key : string) : result (dict value) :=
  match dict_get session key with
  | None => Raise TypeError
  | Some text =>
      if negb (truthy_value text) then Ok annotations
      else
        match text with
        | VStr s =>
            if negb (String.eqb (strip s) "")
            then Ok (dict_set annotations (fidx key) text)
            else Ok annotations
        | _ => Raise AttributeError
        end
  end.

Lemma save_step (acc acc' : dict value) (key : string) :
  body acc key = Ok acc' ->
  acc' = match saved_text (dict_get session key) with
         | Some v => dict_set acc (fidx key) v
         | None => acc
         end.
Proof.
  unfold body, saved_text.
  destruct (dict_get session key) as [[| n | x | s]|]; simpl;
    try discriminate.
  - intros H. now injection H as <-.
  - destruct (negb (negb (n =? 0))); [|discriminate].
    intros H. now injection H as <-.
  - destruct (negb (truthy x)); [|discriminate].
    intros H. now injection H as <-.
  - destruct (String.eqb s "") eqn:Es; simpl.
    + apply String.eqb_eq in Es. subst s. simpl.
      intros H. now injection H as <-.
    + destruct (String.eqb (strip s) ""); simpl;
        intros H; now injection H as <-.
Qed.

Lemma save_loop (keys : list string) :
  forall (acc d : dict value),
    for_each body keys acc = Ok d ->
    NoDup (map fidx keys) ->
    forall k,
      dict_get d k
      = match find (fun key => String.eqb (fidx key) k) keys with
        | Some key =>
            match saved_text (dict_get session key) with
            | Some v => Some v
            | None => dict_get acc k
            end
        | None => dict_get acc k
        end.
Proof.
  induction keys as [|key keys IH]; intros acc d H Hnd k.
  - simpl in H. injection H as <-. reflexivity.
  - cbn [for_each] in H.
    destruct (body acc key) as [acc1|e] eqn:E; cbn [bind] in H;
      [|discriminate].
    apply save_step in E.
    simpl in Hnd. inversion Hnd as [|? ? Hnot Hnd']; subst.
    rewrite (IH _ d H Hnd' k). cbn [find].
    destruct (String.eqb (fidx key) k) eqn:Ek.
    + apply String.eqb_eq in Ek.
      assert (Hf : find (fun key0 => String.eqb (fidx key0) k) keys = None).
      { destruct (find _ keys) as [key'|] eqn:Ef; [|reflexivity].
        apply find_some in Ef. destruct Ef as [Hin Heq].
        apply String.eqb_eq in Heq. exfalso. apply Hnot.
        rewrite Ek, <- Heq. now apply in_map. }
      rewrite Hf.
      destruct (saved_text (dict_get session key)) as [v|]; [|reflexivity].
      rewrite dict_get_set, Ek, String.eqb_refl. reflexivity.
    + destruct (saved_text (dict_get session key)) as [v|];
        [|reflexivity].
      now rewrite dict_get_set, Ek.
Qed.

Lemma save_loop_ok (keys : list string) :
  forall (acc d : dict value),
    for_each body keys acc = Ok d -> dict_ok acc -> dict_ok d.
Proof.
  induction keys as [|key keys IH]; intros acc d H Hok.
  - simpl in H. now injection H as <-.
  - cbn [for_each] in H.
    destruct (body acc key) as [acc1|e] eqn:E; cbn [bind] in H;
      [|discriminate].
    apply save_step in E. apply (IH acc1 d H). subst acc1.
    destruct (saved_text (dict_get session key));
      [now apply dict_set_ok | assumption].
Qed.

End SaveLoop.

Lemma text_area_keys_NoDup (session : dict value) :
  dict_ok session -> text_area_keys_only session ->
  NoDup (map (fun key => nth 1 (split "_" key) EmptyString)
             (filter (fun k => startswith k "annot_") (map fst session))).
Proof.
  intros Hok Hkeys.
  apply NoDup_map_NoDup_ForallPairs; [|now apply NoDup_filter].
  intros x y Hx Hy Heq.
  apply filter_In in Hx. apply filter_In in Hy.
  destruct Hx as [Hx Sx]. destruct Hy as [Hy Sy].
  destruct (Hkeys x Hx Sx) as [i ->]. destruct (Hkeys y Hy Sy) as [j ->].
  rewrite !text_area_key_index in Heq. now rewrite Heq.
Qed.

Lemma saved_annotations_spec_aux (session saved : dict value) :
  dict_ok session ->
  text_area_keys_only session ->
  annotations_to_save session = Ok saved ->
  dict_ok saved
  /\ forall i : nat,
       dict_get saved (str_of_int (Z.of_nat i))
       = saved_text
           (dict_get session ("annot_" ++ str_of_int (Z.of_nat i))).
Proof.
  intros Hok Hkeys H. unfold annotations_to_save in H.
  set (keys := filter (fun k => startswith k "annot_") (map fst session)) in *.
  split; [apply (save_loop_ok session keys [] saved H); constructor|].
  intros i.
  rewrite (save_loop session keys [] saved H
             (text_area_keys_NoDup session Hok Hkeys)).
  set (key_i := ("annot_" ++ str_of_int (Z.of_nat i))%string).
  assert (Hfound : forall key',
            find (fun key => String.eqb (nth 1 (split "_" key) EmptyString)
                                        (str_of_int (Z.of_nat i))) keys
            = Some key' -> key' = key_i).
  { intros key' Hf. apply find_some in Hf. destruct Hf as [Hin Heq].
    apply String.eqb_eq in Heq. apply filter_In in Hin.
    destruct Hin as [Hin Hs]. destruct (Hkeys key' Hin Hs) as [j ->].
    rewrite text_area_key_index in Heq. unfold key_i. now rewrite Heq. }
  destruct (find _ keys) as [key'|] eqn:Ef.
  - rewrite (Hfound key' eq_refl).
    destruct (saved_text (dict_get session key_i)); reflexivity.
  - simpl.
    destruct (dict_get session key_i) as [v|] eqn:Eg; [|reflexivity].
    exfalso. apply dict_get_Some_In in Eg.
    assert (Hin : In key_i keys).
    { apply filter_In. split; [exact Eg|].
      apply startswith_iff. now exists (str_of_int (Z.of_nat i)). }
    apply (find_none _ _ Ef) in Hin.
    unfold key_i in Hin. rewrite text_area_key_index in Hin.
    now rewrite String.eqb_refl in Hin.
Qed.

(** X14: what Save writes.  For a session state whose "annot_" keys are
    those of the text areas, the saved dictionary maps the frame index [i]
    (as text) to the content of the text area of frame [i] exactly when
    that content is a string that is not blank; otherwise the frame has no
    entry.  No key is written twice. *)
Theorem saved_annotations_spec (session saved : dict value) :
  dict_ok session ->
  text_area_keys_only session ->
  annotations_to_save session = Ok saved ->
  dict_ok saved
  /\ forall i : nat,
       dict_get saved (str_of_int (Z.of_nat i))
       = saved_text
           (dict_get session ("annot_" ++ str_of_int (Z.of_nat i))).
Proof. apply saved_annotations_spec_aux. Qed.

Lemma session_keys_generated : text_area_keys_only Examples.session.
Proof.
  intros key Hin Hs. simpl in Hin.
  destruct Hin as [<-|[<-|[<-|[]]]]; [discriminate Hs | now exists 0%nat
                                     | now exists 2%nat].
Qed.

Lemma session_ok : dict_ok Examples.session.
Proof.
  unfold dict_ok. simpl.
  repeat constructor; simpl; intros H;
    repeat (destruct H as [H|H]; [discriminate H|]); exact H.
Qed.

Lemma saved_annotations_spec_witness :
  dict_ok Examples.session
  /\ text_area_keys_only Examples.session
  /\ annotations_to_save Examples.session
     = Ok [("0"%string, VStr "opening shot")]
  /\ dict_get [("0"%string, VStr "opening shot")] (str_of_int (Z.of_nat 2))
     = saved_text (dict_get Examples.session
                            ("annot_" ++ str_of_int (Z.of_nat 2))).
Proof.
  assert (HS : annotations_to_save Examples.session
               = Ok [("0"%string, VStr "opening shot")])
    by (vm_compute; reflexivity).
  split; [exact session_ok|]. split; [exact session_keys_generated|].
  split; [exact HS|].
  exact (proj2 (saved_annotations_spec _ _ session_ok session_keys_generated
                  HS) 2%nat).
Defined.

Lemma annotated_eta (a : annotated) :
  {| keyframe := keyframe a; annotation := annotation a |} = a.
Proof. now destruct a. Qed.

Lemma annotate_first_map (frame_idx : string) (text : value)
    (session : dict value) (kfs : list annotated) :
  NoDup (map (fun a => frame_index (keyframe a)) kfs) ->
  fst (annotate_first frame_idx text kfs session)
  = map (fun a =>
           {| keyframe := keyframe a;
              annotation :=
                if String.eqb
                     (str_of_int (Z.of_nat (frame_index (keyframe a))))
                     frame_idx
                then Some text else annotation a |})
        kfs.
Proof.
  induction kfs as [|a kfs IH]; intros Hnd; [reflexivity|].
  simpl in Hnd. inversion Hnd as [|? ? Hnot Hnd']; subst.
  cbn [annotate_first map].
  destruct (String.eqb (str_of_int (Z.of_nat (frame_index (keyframe a))))
                       frame_idx) eqn:E.
  - cbn [fst]. f_equal.
    rewrite <- (map_id kfs) at 1. apply map_ext_in. intros b Hb.
    destruct (String.eqb (str_of_int (Z.of_nat (frame_index (keyframe b))))
                         frame_idx) eqn:Eb.
    + exfalso. apply Hnot.
      apply String.eqb_eq in E. apply String.eqb_eq in Eb.
      rewrite <- Eb in E. apply str_of_nat_inj in E. rewrite E.
      now apply (in_map (fun a => frame_index (keyframe a))).
    + symmetry. apply annotated_eta.
  - specialize (IH Hnd').
    destruct (annotate_first frame_idx text kfs session) as [rest' session'].
    cbn [fst] in *. now rewrite IH, annotated_eta.
Qed.

Lemma load_annotations_map (saved : dict value) :
  forall (kfs : list annotated) (session : dict value),
    dict_ok saved ->
    NoDup (map (fun a => frame_index (keyframe a)) kfs) ->
    fst (load_annotations saved kfs session)
    = map (fun a =>
             {| keyframe := keyframe a;
                annotation :=
                  match dict_get saved
                          (str_of_int (Z.of_nat (frame_index (keyframe a))))
                  with
                  | Some v => Some v
                  | None => annotation a
                  end |})
          kfs.
Proof.
  induction saved as [|[k0 v0] saved IH]; intros kfs session Hok Hnd.
  - simpl. rewrite <- (map_id kfs) at 1. apply map_ext.
    intros a. symmetry. apply annotated_eta.
  - unfold dict_ok in Hok. simpl in Hok.
    inversion Hok as [|? ? Hk0 Hok']; subst.
    unfold load_annotations. cbn [fold_left fst snd].
    pose proof (annotate_first_map k0 v0 session kfs Hnd) as H1.
    destruct (annotate_first k0 v0 kfs session) as [kfs1 session1].
    cbn [fst] in H1. subst kfs1.
    fold (load_annotations saved
            (map (fun a =>
                    {| keyframe := keyframe a;
                       annotation :=
                         if String.eqb
                              (str_of_int (Z.of_nat (frame_index (keyframe a))))
                              k0
                         then Some v0 else annotation a |}) kfs) session1).
    rewrite IH; [|exact Hok'|now rewrite map_map].
    rewrite map_map. apply map_ext. intros a. cbn [keyframe annotation].
    f_equal. cbn [dict_get].
    rewrite (String.eqb_sym k0).
    destruct (String.eqb (str_of_int (Z.of_nat (frame_index (keyframe a)))) k0)
      eqn:E; [|reflexivity].
    apply String.eqb_eq in E. subst k0.
    now rewrite (dict_get_None saved _ Hk0).
Qed.

Lemma StronglySorted_lt_NoDup (l : list nat) : StronglySorted lt l -> NoDup l.
Proof.
  induction 1 as [|a l Hs IH Ha]; constructor; [|exact IH].
  intros Hin. rewrite Forall_forall in Ha. specialize (Ha a Hin). lia.
Qed.

Lemma extract_keyframes_indices_NoDup {frame : Type} (env : environment frame)
    (md : metadata) (kfs : list keyframe_data) :
  extract_keyframes env md = Ok kfs -> NoDup (map frame_index kfs).
Proof.
  intros H. apply extract_keyframes_Ok in H.
  destruct H as (vp & sn & vi & _ & _ & _ & H).
  apply loop_Ok in H. destruct H as [new [-> HF]]. simpl.
  rewrite (Forall2_positions _ _ _ _ _ HF).
  apply StronglySorted_lt_NoDup, enumerate_positions_sorted.
Qed.

(** X15: loading saved annotations changes no keyframe and gives each
    keyframe the annotation saved under its frame index, if there is one;
    a keyframe without a saved entry keeps the annotation it had.  (The
    frame indices of the keyframes are distinct and no key is saved
    twice.) *)
Theorem load_annotations_spec (saved : dict value) (kfs : list annotated)
    (session : dict value) :
  dict_ok saved ->
  NoDup (map (fun a => frame_index (keyframe a)) kfs) ->
  fst (load_annotations saved kfs session)
  = map (fun a =>
           {| keyframe := keyframe a;
              annotation :=
                match dict_get saved
                        (str_of_int (Z.of_nat (frame_index (keyframe a))))
                with
                | Some v => Some v
                | None => annotation a
                end |})
        kfs.
Proof. intros Hok Hnd. now apply load_annotations_map. Qed.

(** X16: save, then load.  For the keyframes [extract_keyframes] returns
    and a session state whose "annot_" keys are those of the text areas,
    loading the dictionary that Save wrote gives every keyframe back the
    text of its own text area when that text is not blank, and no
    annotation otherwise. *)
Theorem annotations_round_trip {frame : Type} (env : environment frame)
    (md : metadata) (kfs : list keyframe_data)
    (session saved later_session : dict value) :
  extract_keyframes env md = Ok kfs ->
  dict_ok session ->
  text_area_keys_only session ->
  annotations_to_save session = Ok saved ->
  fst (load_annotations saved (map fresh kfs) later_session)
  = map (fun kf =>
           {| keyframe := kf;
              annotation := saved_text (dict_get session (annot_key kf)) |})
        kfs.
Proof.
  intros HE Hok Hkeys HS.
  destruct (saved_annotations_spec_aux session saved Hok Hkeys HS)
    as [Hsaved Hget].
  rewrite load_annotations_map; [|exact Hsaved|].
  - rewrite map_map. apply map_ext. intros kf. cbn [fresh keyframe annotation].
    f_equal. rewrite Hget. unfold annot_key.
    destruct (saved_text _); reflexivity.
  - rewrite map_map. cbn [fresh keyframe].
    now apply (extract_keyframes_indices_NoDup env md).
Qed.

Lemma load_annotations_spec_witness :
  dict_ok [("0"%string, VStr "opening shot")]
  /\ NoDup (map (fun a => frame_index (keyframe a))
                (map fresh Examples.damaged_keyframes))
  /\ map annotation
       (fst (load_annotations [("0"%string, VStr "opening shot")]
               (map fresh Examples.damaged_keyframes) []))
     = [Some (VStr "opening shot"); None].
Proof.
  assert (H1 : dict_ok [("0"%string, VStr "opening shot")]).
  { unfold dict_ok. simpl. constructor; [tauto | constructor]. }
  assert (H2 : NoDup (map (fun a => frame_index (keyframe a))
                          (map fresh Examples.damaged_keyframes))).
  { vm_compute. repeat constructor; simpl; intros H;
      repeat (destruct H as [H|H]; [discriminate H|]); exact H. }
  split; [exact H1|]. split; [exact H2|].
  rewrite (load_annotations_spec _ _ [] H1 H2). vm_compute. reflexivity.
Defined.

Lemma annotations_round_trip_witness :
  extract_keyframes (Examples.studio Examples.damaged)
                    (Examples.document Examples.two_shots)
  = Ok Examples.damaged_keyframes
  /\ dict_ok Examples.session
  /\ text_area_keys_only Examples.session
  /\ annotations_to_save Examples.session
     = Ok [("0"%string, VStr "opening shot")]
  /\ map annotation
       (fst (load_annotations [("0"%string, VStr "opening shot")]
               (map fresh Examples.damaged_keyframes) []))
     = [Some (VStr "opening shot"); None].
Proof.
  assert (HE : extract_keyframes (Examples.studio Examples.damaged)
                                 (Examples.document Examples.two_shots)
               = Ok Examples.damaged_keyframes) by (vm_compute; reflexivity).
  assert (HS : annotations_to_save Examples.session
               = Ok [("0"%string, VStr "opening shot")])
    by (vm_compute; reflexivity).
  split; [exact HE|]. split; [exact session_ok|].
  split; [exact session_keys_generated|]. split; [exact HS|].
  rewrite (annotations_round_trip _ _ _ _ _ [] HE session_ok
             session_keys_generated HS).
  vm_compute. reflexivity.
Defined.

(* ================================================================== *)
(** * The enrichment of keyframes                                       *)
(* ================================================================== *)

Section EnrichmentFacts.

Import metadata_extraction metadata_enrichment.

Context {frame gray image box : Type}.
Variable VideoCapture : string -> list frame.
Variable cvtColor : frame -> gray.
Variable absdiff : gray -> gray -> gray.
Variable mean : gray -> float.
Variable imread : string -> option image.
Variable detect_common_objects : image -> list box * list string * list float.
Variable detect_face : image -> list box * list float.

Lemma zip3_length {A B C : Type} (la : list A) (lb : list B) (lc : list C) :
  List.length (zip3 la lb lc)
  = Nat.min (List.length la) (Nat.min (List.length lb) (List.length lc)).
Proof.
  revert lb lc. induction la as [|a la IH]; intros lb lc; [reflexivity|].
  destruct lb as [|b lb]; [reflexivity|].
  destruct lc as [|c lc]; simpl; [lia|].
  now rewrite IH.
Qed.

(** X17: [process_video_metadata] returns the scene-change keyframes
    themselves, one enhanced record each, in the same order.  A keyframe
    whose image cannot be read gains neither objects nor faces; one whose
    image is read gains as many objects as the shortest of the detector's
    three lists and as many faces as the shorter of its two lists. *)
Theorem process_video_metadata_spec (video_path : string) (threshold : float) :
  map (@base box)
      (process_video_metadata VideoCapture cvtColor absdiff mean imread
         detect_common_objects detect_face video_path threshold)
  = extract_keyframes VideoCapture cvtColor absdiff mean video_path threshold
  /\ forall e,
       In e (process_video_metadata VideoCapture cvtColor absdiff mean imread
               detect_common_objects detect_face video_path threshold) ->
       match imread (keyframe_path (base e)) with
       | None => objects e = None /\ detected_faces e = None
       | Some img =>
           exists objs fcs,
             objects e = Some objs /\ detected_faces e = Some fcs
             /\ List.length objs
                = Nat.min (List.length (fst (fst (detect_common_objects img))))
                    (Nat.min
                       (List.length (snd (fst (detect_common_objects img))))
                       (List.length (snd (detect_common_objects img))))
             /\ List.length fcs
                = Nat.min (List.length (fst (detect_face img)))
                          (List.length (snd (detect_face img)))
       end.
Proof.
  assert (Hbase : forall kf,
            base (enhance_keyframe imread detect_common_objects detect_face kf)
            = kf).
  { intros kf. unfold enhance_keyframe.
    destruct (imread (keyframe_path kf)) as [img|]; [|reflexivity].
    destruct (detect_common_objects img) as [[bbox labels] confidences].
    destruct (detect_face img) as [faces face_confidences]. reflexivity. }
  unfold process_video_metadata. split.
  - rewrite map_map. rewrite <- (map_id (extract_keyframes _ _ _ _ _ _)) at 2.
    apply map_ext. exact Hbase.
  - intros e He. apply in_map_iff in He. destruct He as [kf [<- _]].
    rewrite Hbase. unfold enhance_keyframe.
    destruct (imread (keyframe_path kf)) as [img|]; [|split; reflexivity].
    destruct (detect_common_objects img) as [[bbox labels] confidences].
    destruct (detect_face img) as [faces face_confidences].
    eexists. eexists. split; [reflexivity|]. split; [reflexivity|].
    cbn [fst snd]. rewrite !length_map, zip3_length, length_combine.
    split; reflexivity.
Qed.

End EnrichmentFacts.

(* ================================================================== *)
(** * Metadata files: saved, listed, found again                        *)
(* ================================================================== *)

(** X18: [list_json_files] lists, in directory order, exactly the entries
    that end with .json, each joined to the directory.  The file in which
    app.py saves the insights of an upload, <base>_<stamp>_cloud.json, is
    one of them once it is in data/processed, and it is a candidate of
    [get_latest_metadata_file] for the base name of the indexed video, so
    that function then returns a file and not [None]. *)
Theorem saved_metadata_is_found (base stamp : string) (listing : list string)
    (getctime : string -> float) :
  (forall p directory,
     In p (app.list_json_files directory listing) <->
     exists f, p = path_join directory f /\ In f listing
               /\ endswith f ".json" = true)
  /\ (In (app.insights_filename base stamp) listing ->
      In (app.save_insights_to_file base stamp)
         (app.list_json_files "data/processed" listing)
      /\ get_latest_metadata_file listing getctime
           (base_name_of (app.unique_video_name base stamp)) <> None).
Proof.
  assert (Hlist : forall p directory,
     In p (app.list_json_files directory listing) <->
     exists f, p = path_join directory f /\ In f listing
               /\ endswith f ".json" = true).
  { intros p directory. unfold app.list_json_files.
    rewrite in_map_iff. split.
    - intros [f [<- Hf]]. apply filter_In in Hf. exists f. tauto.
    - intros [f [-> [Hf He]]]. exists f. split; [reflexivity|].
      apply filter_In. tauto. }
  split; [exact Hlist|]. intros Hin.
  assert (Hjson : endswith (app.insights_filename base stamp) ".json" = true).
  { apply endswith_iff. exists (base ++ "_" ++ stamp ++ "_cloud")%string.
    unfold app.insights_filename.
    rewrite <- !string_app_assoc. reflexivity. }
  assert (Hcloud : endswith (app.insights_filename base stamp) "_cloud.json"
                   = true).
  { apply endswith_iff. exists (base ++ "_" ++ stamp)%string.
    unfold app.insights_filename.
    rewrite <- !string_app_assoc. reflexivity. }
  assert (Hstart : startswith (app.insights_filename base stamp)
                     (base_name_of (app.unique_video_name base stamp)) = true).
  { destruct (base_name_before_first_underscore_aux base stamp) as [-> Hp].
    apply startswith_iff in Hp. destruct Hp as [r Hp].
    apply startswith_iff. exists (r ++ "_" ++ stamp ++ "_cloud.json")%string.
    unfold app.insights_filename. rewrite Hp at 1.
    rewrite <- !string_app_assoc. reflexivity. }
  split.
  - apply Hlist. exists (app.insights_filename base stamp). auto.
  - unfold get_latest_metadata_file.
    destruct (filter _ listing) as [|c rest] eqn:E; [|discriminate].
    apply filter_nil_iff in E.
    assert (Hex : existsb
              (fun f => startswith f
                          (base_name_of (app.unique_video_name base stamp))
                        && endswith f "_cloud.json") listing = true).
    { apply existsb_exists. exists (app.insights_filename base stamp).
      split; [exact Hin|]. now rewrite Hstart, Hcloud. }
    congruence.
Qed.

(* ================================================================== *)
(** * Reading back what the formatter writes                            *)
(* ================================================================== *)

Ltac eval_digits :=
  repeat match goal with
  | |- context [digit_value ?c] =>
      let v := eval vm_compute in (digit_value c) in
      change (digit_value c) with v
  end.

Lemma int_digits_uint (d : Decimal.uint) (acc : Z) :
  int_digits acc (NilEmpty.string_of_uint d) = Some (uint_value acc d).
Proof.
  revert acc.
  induction d; intros acc;
    cbn [NilEmpty.string_of_uint int_digits uint_value]; eval_digits;
    cbv iota; auto.
Qed.

Lemma uint_value_pos (d : Decimal.uint) (acc : positive) :
  uint_value (Zpos acc) d = Zpos (Pos.of_uint_acc d acc).
Proof.
  revert acc.
  induction d; intros acc; cbn [uint_value Pos.of_uint_acc];
    [reflexivity | rewrite <- IHd; f_equal; lia ..].
Qed.

Lemma uint_value_zero (d : Decimal.uint) :
  uint_value 0 d = Z.of_N (N.of_uint d).
Proof.
  induction d; cbn [uint_value]; try reflexivity;
    try (exact IHd);
    apply (uint_value_pos d).
Qed.

Lemma int_digits_digits_of (n : N) :
  int_digits 0 (digits_of n) = Some (Z.of_N n).
Proof.
  rewrite digits_of_eq, int_digits_uint, uint_value_zero.
  now rewrite DecimalN.Unsigned.of_to.
Qed.

Lemma int_digits_zfill (w : nat) (s : string) :
  int_digits 0 (zfill w s) = int_digits 0 s.
Proof.
  induction w as [|w IH]; cbn [zfill].
  - destruct (Nat.leb 0 (String.length s)); reflexivity.
  - destruct (Nat.leb (S w) (String.length s)); [reflexivity|].
    cbn [int_digits]. eval_digits. cbv iota. exact IH.
Qed.

Lemma chars_app (a b : string) (c : ascii) :
  In c (chars (a ++ b)) <-> In c (chars a) \/ In c (chars b).
Proof.
  induction a as [|x a IH]; simpl; [tauto|]. rewrite IH. tauto.
Qed.

Lemma zfill_chars (w : nat) (s : string) :
  Forall (fun c => is_digit c = true) (chars s) ->
  Forall (fun c => is_digit c = true) (chars (zfill w s)).
Proof.
  intros H. induction w as [|w IH]; cbn [zfill].
  - destruct (Nat.leb 0 (String.length s)); assumption.
  - destruct (Nat.leb (S w) (String.length s)); [assumption|].
    simpl. constructor; [reflexivity | exact IH].
Qed.

Lemma zfill_nonempty (w : nat) (s : string) :
  s <> EmptyString -> zfill w s <> EmptyString.
Proof.
  intros H. destruct w as [|w]; cbn [zfill].
  - destruct (Nat.leb 0 (String.length s)); assumption.
  - destruct (Nat.leb (S w) (String.length s)); [assumption | discriminate].
Qed.

(** A string of digits that is not empty is read from its first digit. *)
Lemma int_unsigned_digits (s : string) :
  s <> EmptyString ->
  Forall (fun c => is_digit c = true) (chars s) ->
  int_unsigned s = int_digits 0 s.
Proof.
  intros Hne Hd. destruct s as [|c s]; [contradiction|].
  simpl in Hd. inversion Hd as [|? ? Hc _]; subst.
  unfold int_unsigned, is_digit in *. cbn [int_digits].
  destruct (digit_value c) as [d|]; [reflexivity | discriminate].
Qed.

Lemma lstrip_no_space (s : string) :
  Forall (fun c => is_space c = false) (chars s) -> lstrip s = s.
Proof.
  destruct s as [|c s]; [reflexivity|]. simpl. intros H.
  inversion H as [|? ? Hc _]; subst. now rewrite Hc.
Qed.

Lemma rstrip_no_space (s : string) :
  Forall (fun c => is_space c = false) (chars s) -> rstrip s = s.
Proof.
  induction s as [|c s IH]; [reflexivity|]. simpl. intros H.
  inversion H as [|? ? Hc Hs]; subst. rewrite (IH Hs).
  destruct s; [now rewrite Hc | reflexivity].
Qed.

Lemma digit_not_space (c : ascii) : is_digit c = true -> is_space c = false.
Proof.
  unfold is_digit, digit_value, is_space.
  destruct ((48 <=? code c) && (code c <=? 57)) eqn:E; [|discriminate].
  intros _. apply andb_true_iff in E. destruct E as [E1 E2].
  apply Z.leb_le in E1. apply Z.leb_le in E2.
  repeat match goal with
         | |- context [?a <=? ?b] =>
             let H := fresh in destruct (Z.leb_spec a b) as [H|H]
         | |- context [?a =? ?b] =>
             let H := fresh in destruct (Z.eqb_spec a b) as [H|H]
         end; try reflexivity; lia.
Qed.

Lemma format_d_shape (w : nat) (n : Z) :
  exists body,
    format_d w n = (if (n <? 0)%Z then String "-" body else body)
    /\ body <> EmptyString
    /\ Forall (fun c => is_digit c = true) (chars body)
    /\ int_digits 0 body = Some (Z.abs n).
Proof.
  unfold format_d. fold (digits_of (Z.abs_N n)).
  destruct (n <? 0).
  - exists (zfill (w - 1) (digits_of (Z.abs_N n))). split; [reflexivity|].
    split; [apply zfill_nonempty, digits_of_nonempty|].
    split; [apply zfill_chars, digits_of_digits|].
    rewrite int_digits_zfill, int_digits_digits_of. f_equal. lia.
  - exists (zfill w (digits_of (Z.abs_N n))). split; [reflexivity|].
    split; [apply zfill_nonempty, digits_of_nonempty|].
    split; [apply zfill_chars, digits_of_digits|].
    rewrite int_digits_zfill, int_digits_digits_of. f_equal. lia.
Qed.

Lemma format_d_chars (w : nat) (n : Z) (c : ascii) :
  In c (chars (format_d w n)) -> is_digit c = true \/ c = "-"%char.
Proof.
  destruct (format_d_shape w n) as (body & -> & _ & Hd & _).
  rewrite Forall_forall in Hd.
  destruct (n <? 0); simpl; [intros [<-|H]|intros H];
    [now right | left; now apply Hd ..].
Qed.

(** [int] reads back the integer that [format_d] wrote, for every width and
    every integer. *)
Lemma int_format_d (w : nat) (n : Z) : int (format_d w n) = Ok n.
Proof.
  assert (Hns : Forall (fun c => is_space c = false) (chars (format_d w n))).
  { apply Forall_forall. intros c Hc. apply format_d_chars in Hc.
    destruct Hc as [Hc| ->]; [now apply digit_not_space | reflexivity]. }
  unfold int. rewrite (lstrip_no_space _ Hns), (rstrip_no_space _ Hns).
  destruct (format_d_shape w n) as (body & -> & Hne & Hd & Hv).
  destruct (n <? 0) eqn:En.
  - cbn [int_of_stripped]. rewrite Ascii.eqb_refl.
    rewrite (int_unsigned_digits body Hne Hd), Hv. simpl.
    apply Z.ltb_lt in En. f_equal. lia.
  - destruct body as [|c body]; [contradiction|].
    cbn [int_of_stripped].
    assert (Hc : is_digit c = true) by (simpl in Hd; now inversion Hd).
    assert (Hm : Ascii.eqb c "-" = false).
    { destruct (Ascii.eqb_spec c "-"); [subst; discriminate Hc | reflexivity]. }
    assert (Hp : Ascii.eqb c "+" = false).
    { destruct (Ascii.eqb_spec c "+"); [subst; discriminate Hc | reflexivity]. }
    rewrite Hm, Hp, (int_unsigned_digits _ Hne Hd), Hv.
    apply Z.ltb_ge in En. f_equal. lia.
Qed.

Lemma format_d_no_char (w : nat) (n : Z) (c : ascii) :
  is_digit c = false -> c <> "-"%char -> ~ In c (chars (format_d w n)).
Proof.
  intros Hd Hm Hin. apply format_d_chars in Hin.
  destruct Hin as [Hin|Hin]; congruence.
Qed.

(** X19: [parse_time] reads back the four fields of any text the formatter
    can write: for all integers, the text hours:minutes:seconds.milliseconds
    (each field zero-padded as in the formatter) parses to
    3600*hours + 60*minutes + seconds + milliseconds/1000, the division and
    the sum being those of Python (one rounding each). *)
Theorem parse_time_canonical_text (hours minutes seconds milliseconds : Z) :
  parse_time_body (VStr (canonical_text hours minutes seconds milliseconds))
  = (frac <- int_truediv milliseconds 1000 ;;
     int_add_float (hours * 3600 + minutes * 60 + seconds) frac).
Proof.
  unfold parse_time_body, canonical_text.
  assert (Hcolon : forall w n, ~ In ":"%char (chars (format_d w n))).
  { intros w n. apply format_d_no_char; [reflexivity | discriminate]. }
  assert (Hdot : forall w n, ~ In "."%char (chars (format_d w n))).
  { intros w n. apply format_d_no_char; [reflexivity | discriminate]. }
  change (format_d 2 hours ++ ":" ++ format_d 2 minutes ++ ":"
          ++ format_d 2 seconds ++ "." ++ format_d 3 milliseconds)%string
    with (format_d 2 hours
          ++ String ":" (format_d 2 minutes
          ++ String ":" (format_d 2 seconds
          ++ String "." (format_d 3 milliseconds))))%string.
  rewrite (split_app_sep ":" _ _ (Hcolon 2%nat hours)).
  rewrite (split_app_sep ":" _ _ (Hcolon 2%nat minutes)).
  rewrite split_no_sep.
  - rewrite (split_app_sep "." _ _ (Hdot 2%nat seconds)).
    rewrite (split_no_sep "." _ (Hdot 3%nat milliseconds)).
    rewrite !int_format_d. reflexivity.
  - rewrite chars_app. intros [H|H]; [now apply (Hcolon 2%nat seconds)|].
    simpl in H. destruct H as [H|H]; [discriminate H|].
    now apply (Hcolon 3%nat milliseconds).
Qed.

(* ================================================================== *)
(** * Worked instances of the conditional parts                         *)
(* ================================================================== *)

Lemma sanitize_spec_witness :
  Forall (fun c => isalnum c = true) (chars "clip01")
  /\ sanitize "clip01" = "clip01"%string.
Proof.
  assert (H : Forall (fun c => isalnum c = true) (chars "clip01"))
    by (repeat constructor).
  split; [exact H|].
  exact (proj2 (proj2 (proj2 (sanitize_spec "clip01"))) H).
Defined.

Lemma base_name_before_first_underscore_witness :
  ~ In "_"%char (chars "clip01")
  /\ base_name_of (app.unique_video_name "clip01" "20240101120000")
     = "clip01"%string.
Proof.
  assert (H : ~ In "_"%char (chars "clip01")).
  { simpl. intros H. repeat (destruct H as [H|H]; [discriminate H|]). exact H. }
  split; [exact H|].
  exact (proj2 (proj2 (proj2 (proj2
           (base_name_before_first_underscore "clip01")))) H
           "20240101120000"%string).
Defined.

Lemma scene_change_count_witness :
  (List.length ((fun _ : string => [[10; 10; 10; 10]]) "still.mp4"%string)
   <= 1)%nat
  /\ metadata_extraction.extract_keyframes
       (fun _ : string => [[10; 10; 10; 10]]) (fun img => img)
       Examples.absdiff_pixels Examples.mean_pixels "still.mp4"
       metadata_extraction.default_threshold = [].
Proof.
  assert (H : (List.length
                 ((fun _ : string => [[10; 10; 10; 10]]) "still.mp4"%string)
               <= 1)%nat) by (simpl; lia).
  split; [exact H|].
  exact (proj2 (scene_change_count (fun _ : string => [[10; 10; 10; 10]])
                  (fun img => img) Examples.absdiff_pixels
                  Examples.mean_pixels "still.mp4"
                  metadata_extraction.default_threshold) H).
Defined.

Lemma saved_metadata_is_found_witness :
  In (app.insights_filename "clip01" "20240101120000")
     ["notes.txt"%string; "clip01_20240101120000_cloud.json"%string]
  /\ In (app.save_insights_to_file "clip01" "20240101120000")
        (app.list_json_files "data/processed"
           ["notes.txt"%string; "clip01_20240101120000_cloud.json"%string])
  /\ get_latest_metadata_file
       ["notes.txt"%string; "clip01_20240101120000_cloud.json"%string]
       (fun _ => fzero)
       (base_name_of (app.unique_video_name "clip01" "20240101120000"))
     <> None.
Proof.
  assert (H : In (app.insights_filename "clip01" "20240101120000")
                ["notes.txt"%string;
                 "clip01_20240101120000_cloud.json"%string])
    by (right; left; reflexivity).
  split; [exact H|].
  exact (proj2 (saved_metadata_is_found "clip01" "20240101120000"
                  ["notes.txt"%string;
                   "clip01_20240101120000_cloud.json"%string]
                  (fun _ => fzero)) H).
Defined.
